(** * Verification of the stats-tracker encryption pipeline

    A shallow embedding of [scripts/encrypt.js], the data-only encryption
    script and the decryption script: the hex codec, the chained key
    derivation, the cipher wrapper with its positional wire format, and the
    three command-line workflows over an explicit file system.  The three
    scripts carry the same [HexEncoder], [UTF8Encoder], [pbkdf2] and
    [hashPassword]; they are embedded once.

    JavaScript strings are sequences of UTF-16 code units ([list Z]);
    a [Uint8Array] is a [list byte].  The Web Crypto primitives (PBKDF2,
    AES-CBC), the JSON parser, the host-document patches and the external
    StatiCrypt process are parameters of the development. *)

From Stdlib Require Import ZArith List String Ascii Lia Bool.
From Stdlib.Strings Require Import Byte.
From stdpp Require Import base option list strings gmap.

Local Open Scope Z_scope.

(** ** JavaScript values *)

(** A JavaScript string: its UTF-16 code units. *)
Abbreviation jsstring := (list Z).

(** String literals of the source, as code units. *)
Definition js (s : string) : jsstring :=
  map (fun a => Z.of_N (N_of_ascii a)) (list_ascii_of_string s).

(** Elements of a [Uint8Array]. *)
Definition Z_of_byte (b : byte) : Z := Z.of_N (Byte.to_N b).

Definition byte_of_Z (z : Z) : byte :=
  match Byte.of_N (Z.to_N (z mod 256)) with
  | Some b => b
  | None => x00
  end.

(** Storing a Number into a [Uint8Array] slot converts it with ToUint8:
    the integer modulo 256. *)
Definition ToUint8 (v : Z) : byte := byte_of_Z (v mod 256).

(** Exceptions thrown by the code and by the platform functions it calls. *)
Inductive exn : Type :=
| InvalidHexString      (* new Error('Invalid hexString') *)
| CryptoError           (* DataError / OperationError of crypto.subtle *)
| SyntaxError           (* JSON.parse *)
| TypeError             (* property access on null or undefined *)
| ENOENT (path : string) (* fs: no such file *)
| ExecError.            (* execSync: the child process failed *)

Inductive result (A : Type) : Type :=
| Ok (a : A)
| Throw (e : exn).
Arguments Ok {A} a.
Arguments Throw {A} e.

#[global] Instance result_ret : MRet result := fun A a => Ok a.

#[global] Instance result_bind : MBind result := fun A B k r =>
  match r with
  | Ok a => k a
  | Throw e => Throw e
  end.

(** ** String.prototype.substring *)

(** [s.substring(start, end)]: both indices are clamped to [0, length],
    and swapped when start exceeds end. *)
Definition substring (s : jsstring) (start end_ : Z) : jsstring :=
  let len := Z.of_nat (length s) in
  let finalStart := Z.min (Z.max start 0) len in
  let finalEnd := Z.min (Z.max end_ 0) len in
  let from := Z.min finalStart finalEnd in
  let to := Z.max finalStart finalEnd in
  take (Z.to_nat (to - from)) (drop (Z.to_nat from) s).

(** [s.substring(start)]: the end defaults to the length. *)
Definition substring_from (s : jsstring) (start : Z) : jsstring :=
  substring s start (Z.of_nat (length s)).

(** ** parseInt(string, 16) *)

(** WhiteSpace and LineTerminator code units, skipped by [parseInt]. *)
Definition is_StrWhiteSpaceChar (c : Z) : bool :=
  (c =? 0x09) || (c =? 0x0A) || (c =? 0x0B) || (c =? 0x0C) || (c =? 0x0D)
  || (c =? 0x20) || (c =? 0xA0) || (c =? 0x1680)
  || ((0x2000 <=? c) && (c <=? 0x200A))
  || (c =? 0x2028) || (c =? 0x2029) || (c =? 0x202F) || (c =? 0x205F)
  || (c =? 0x3000) || (c =? 0xFEFF).

Fixpoint trim_start (s : jsstring) : jsstring :=
  match s with
  | c :: r => if is_StrWhiteSpaceChar c then trim_start r else s
  | [] => []
  end.

(** The value of a radix-16 digit, upper or lower case. *)
Definition hex_digit_value (c : Z) : option Z :=
  if (0x30 <=? c) && (c <=? 0x39) then Some (c - 0x30)
  else if (0x61 <=? c) && (c <=? 0x66) then Some (c - 0x61 + 10)
  else if (0x41 <=? c) && (c <=? 0x46) then Some (c - 0x41 + 10)
  else None.

(** The longest prefix of radix-16 digits: parsing stops silently at the
    first code unit that is not a digit. *)
Fixpoint digits_prefix (s : jsstring) : list Z :=
  match s with
  | c :: r =>
      match hex_digit_value c with
      | Some v => v :: digits_prefix r
      | None => []
      end
  | [] => []
  end.

Definition strip_sign (s : jsstring) : jsstring :=
  match s with
  | c :: r => if (c =? 0x2B) || (c =? 0x2D) then r else s
  | [] => []
  end.

Definition strip_0x (s : jsstring) : jsstring :=
  match s with
  | c :: x :: r =>
      if (c =? 0x30) && ((x =? 0x78) || (x =? 0x58)) then r else s
  | _ => s
  end.

(** [parseInt(s, 16)]; [None] is NaN.  The result is the exact integer,
    which is also the Number for the short inputs the encoder passes. *)
Definition parseInt16 (s : jsstring) : option Z :=
  let S := trim_start s in
  let sign := match S with
              | c :: _ => if c =? 0x2D then -1 else 1
              | [] => 1
              end in
  let S := strip_0x (strip_sign S) in
  match digits_prefix S with
  | [] => None
  | ds => Some (sign * fold_left (fun acc d => acc * 16 + d) ds 0)
  end.

(** ** HexEncoder *)

Module HexEncoder.

(** The body of the [for] loop of [parse], from index [i], [iters]
    iterations to go. *)
Fixpoint parse_loop (hexString : jsstring) (i : Z) (iters : nat)
  : result (list byte) :=
  match iters with
  | O => Ok []
  | S n =>
      match parseInt16 (substring hexString i (i + 2)) with
      | None => Throw InvalidHexString
      | Some byteValue =>
          rest ← parse_loop hexString (i + 2) n;
          Ok (ToUint8 byteValue :: rest)
      end
  end.

Definition parse (hexString : jsstring) : result (list byte) :=
  let len := Z.of_nat (length hexString) in
  if negb (len mod 2 =? 0) then Throw InvalidHexString
  else parse_loop hexString 0 (Z.to_nat (len / 2)).

(** The lower-case digit of a value below 16. *)
Definition digit_char (d : Z) : Z :=
  if d <? 10 then 0x30 + d else 0x61 + (d - 10).

(** [n.toString(16)] for a non-negative integer. *)
Fixpoint toString16_aux (fuel : nat) (n : Z) (acc : jsstring) : jsstring :=
  let acc' := digit_char (n mod 16) :: acc in
  match fuel with
  | O => acc'
  | S f => if n / 16 =? 0 then acc' else toString16_aux f (n / 16) acc'
  end.

Definition toString16 (n : Z) : jsstring :=
  toString16_aux (Z.to_nat (Z.log2 n)) n [].

Definition byteString (b : byte) : jsstring :=
  let byteString := toString16 (Z_of_byte b) in
  if Z.of_nat (length byteString) <? 2 then 0x30 :: byteString
  else byteString.

Definition stringify (bytes : list byte) : jsstring :=
  concat (map byteString bytes).

End HexEncoder.

(** ** UTF8Encoder: TextEncoder and TextDecoder *)

Definition is_lead_surrogate (c : Z) : bool := (0xD800 <=? c) && (c <=? 0xDBFF).
Definition is_trail_surrogate (c : Z) : bool := (0xDC00 <=? c) && (c <=? 0xDFFF).

(** The scalar values of a string, as [TextEncoder.encode] sees it: a
    surrogate pair is one code point, an unpaired surrogate is replaced by
    U+FFFD. *)
Fixpoint code_points (s : jsstring) : list Z :=
  match s with
  | [] => []
  | c :: r =>
      if is_lead_surrogate c then
        match r with
        | d :: r' =>
            if is_trail_surrogate d
            then (0x10000 + (c - 0xD800) * 0x400 + (d - 0xDC00)) :: code_points r'
            else 0xFFFD :: code_points r
        | [] => [0xFFFD]
        end
      else if is_trail_surrogate c then 0xFFFD :: code_points r
      else c :: code_points r
  end.

(** The continuation bytes of the UTF-8 encoder, [count] of them. *)
Fixpoint utf8_continuation (c : Z) (count : nat) : list byte :=
  match count with
  | O => []
  | S k =>
      byte_of_Z (Z.lor 0x80 (Z.land (Z.shiftr c (6 * Z.of_nat k)) 0x3F))
        :: utf8_continuation c k
  end.

(** The UTF-8 encoder on one scalar value. *)
Definition utf8_encode_cp (c : Z) : list byte :=
  if c <=? 0x7F then [byte_of_Z c]
  else
    let '(count, offset) :=
      if c <=? 0x7FF then (1%nat, 0xC0)
      else if c <=? 0xFFFF then (2%nat, 0xE0)
      else (3%nat, 0xF0) in
    byte_of_Z (Z.shiftr c (6 * Z.of_nat count) + offset)
      :: utf8_continuation c count.

(** The state of the UTF-8 decoder. *)
Record utf8_decoder : Type := {
  code_point : Z;
  bytes_seen : Z;
  bytes_needed : Z;
  lower_boundary : Z;
  upper_boundary : Z
}.

Definition utf8_init : utf8_decoder :=
  {| code_point := 0; bytes_seen := 0; bytes_needed := 0;
     lower_boundary := 0x80; upper_boundary := 0xBF |}.

(** The decoder on a byte when no continuation byte is awaited: the code
    points emitted and the next state. *)
Definition utf8_lead (b : Z) : list Z * utf8_decoder :=
  if b <=? 0x7F then ([b], utf8_init)
  else if (0xC2 <=? b) && (b <=? 0xDF) then
    ([], {| code_point := Z.land b 0x1F; bytes_seen := 0; bytes_needed := 1;
            lower_boundary := 0x80; upper_boundary := 0xBF |})
  else if (0xE0 <=? b) && (b <=? 0xEF) then
    ([], {| code_point := Z.land b 0xF; bytes_seen := 0; bytes_needed := 2;
            lower_boundary := if b =? 0xE0 then 0xA0 else 0x80;
            upper_boundary := if b =? 0xED then 0x9F else 0xBF |})
  else if (0xF0 <=? b) && (b <=? 0xF4) then
    ([], {| code_point := Z.land b 0x7; bytes_seen := 0; bytes_needed := 3;
            lower_boundary := if b =? 0xF0 then 0x90 else 0x80;
            upper_boundary := if b =? 0xF4 then 0x8F else 0xBF |})
  else ([0xFFFD], utf8_init).

(** One step of the decoder.  A byte outside the awaited range ends the
    pending sequence with U+FFFD and is then read again as a lead byte. *)
Definition utf8_handler (st : utf8_decoder) (b : Z) : list Z * utf8_decoder :=
  if bytes_needed st =? 0 then utf8_lead b
  else if negb ((lower_boundary st <=? b) && (b <=? upper_boundary st)) then
    let '(out, st') := utf8_lead b in (0xFFFD :: out, st')
  else
    let cp := Z.lor (Z.shiftl (code_point st) 6) (Z.land b 0x3F) in
    let seen := bytes_seen st + 1 in
    if seen =? bytes_needed st then ([cp], utf8_init)
    else ([], {| code_point := cp; bytes_seen := seen;
                 bytes_needed := bytes_needed st;
                 lower_boundary := 0x80; upper_boundary := 0xBF |}).

Fixpoint utf8_decode_from (st : utf8_decoder) (bs : list byte) : list Z :=
  match bs with
  | [] => if bytes_needed st =? 0 then [] else [0xFFFD]
  | b :: r =>
      let '(out, st') := utf8_handler st (Z_of_byte b) in
      out ++ utf8_decode_from st' r
  end.

(** A [TextDecoder] built with no options drops a leading U+FEFF. *)
Definition strip_bom (cps : list Z) : list Z :=
  match cps with
  | c :: r => if c =? 0xFEFF then r else cps
  | [] => []
  end.

(** The code units of a scalar value. *)
Definition utf16_units (c : Z) : jsstring :=
  if c <? 0x10000 then [c]
  else [0xD800 + Z.shiftr (c - 0x10000) 10; 0xDC00 + Z.land (c - 0x10000) 0x3FF].

Module UTF8Encoder.

(** [new TextEncoder().encode(str)] *)
Definition parse (str : jsstring) : list byte :=
  flat_map utf8_encode_cp (code_points str).

(** [new TextDecoder().decode(bytes)] *)
Definition stringify (bytes : list byte) : jsstring :=
  flat_map utf16_units (strip_bom (utf8_decode_from utf8_init bytes)).

End UTF8Encoder.

(** A string all of whose surrogates are paired: [s.isWellFormed()],
    with the range of a code unit. *)
Fixpoint well_formed (s : jsstring) : bool :=
  match s with
  | [] => true
  | c :: r =>
      (0 <=? c) && (c <=? 0xFFFF) &&
      (if is_lead_surrogate c then
         match r with
         | d :: r' => is_trail_surrogate d && well_formed r'
         | [] => false
         end
       else negb (is_trail_surrogate c) && well_formed r)
  end.

Definition starts_with_bom (s : jsstring) : bool :=
  match s with
  | c :: _ => c =? 0xFEFF
  | [] => false
  end.


(** A Unicode scalar value: a code point that is not a surrogate. *)
Definition is_scalar (c : Z) : Prop :=
  0 <= c < 0xD800 \/ 0xE000 <= c < 0x110000.

(** The digits [HexEncoder.stringify] writes. *)
Definition is_lower_hex (c : Z) : bool :=
  ((0x30 <=? c) && (c <=? 0x39)) || ((0x61 <=? c) && (c <=? 0x66)).


(** ** The hex decoder of the specification *)

(** The hex decoder as the specification words it: it fails on a string
    of odd length and on any pair that is not two hex digits, and decodes
    every other string pair by pair. *)
Definition hex_pair_value (a b : Z) : option Z :=
  hi ← hex_digit_value a; lo ← hex_digit_value b; Some (16 * hi + lo).

Fixpoint fromHex_spec (s : jsstring) : option (list byte) :=
  match s with
  | [] => Some []
  | a :: b :: r =>
      v ← hex_pair_value a b; bytes ← fromHex_spec r; Some (byte_of_Z v :: bytes)
  | [_] => None
  end.

(** ** The Web Crypto interface *)

Inductive hash_algorithm : Type := SHA_1 | SHA_256.

(** What the scripts use of [crypto.subtle]: PBKDF2 bit derivation and
    AES-CBC under an imported raw key. *)
Class WebCrypto : Type := {
  (** [deriveBits({name: 'PBKDF2', hash, iterations, salt}, key, length)],
      [key] imported from the raw password bytes *)
  subtle_deriveBits :
    hash_algorithm -> Z -> list byte -> list byte -> Z -> list byte;
  (** [encrypt({name: 'AES-CBC', iv}, key, data)] *)
  subtle_encrypt : list byte -> list byte -> list byte -> result (list byte);
  (** [decrypt({name: 'AES-CBC', iv}, key, data)] *)
  subtle_decrypt : list byte -> list byte -> list byte -> result (list byte)
}.

(** [importKey('raw', bytes, 'AES-CBC', ...)]: the key is 128, 192 or 256
    bits long, a DataError otherwise. *)
Definition importKey_AES (raw : list byte) : result (list byte) :=
  let n := Z.of_nat (length raw) in
  if (n =? 16) || (n =? 24) || (n =? 32) then Ok raw else Throw CryptoError.

Definition IV_BITS : Z := 16 * 8.
Definition HEX_BITS : Z := 4.

Section Engine.
Context {crypto : WebCrypto}.

Definition pbkdf2 (password salt : jsstring) (iterations : Z)
    (hashAlgorithm : hash_algorithm) : jsstring :=
  let key := UTF8Encoder.parse password in
  let keyBytes :=
    subtle_deriveBits hashAlgorithm iterations (UTF8Encoder.parse salt) key 256 in
  HexEncoder.stringify keyBytes.

Definition hashPassword (password salt : jsstring) : jsstring :=
  let hashedPassword := pbkdf2 password salt 1000 SHA_1 in
  let hashedPassword := pbkdf2 hashedPassword salt 14000 SHA_256 in
  pbkdf2 hashedPassword salt 585000 SHA_256.

(** [encrypt(msg, hashedPassword)], on the [iv] that
    [crypto.getRandomValues(new Uint8Array(IV_BITS / 8))] returned. *)
Definition encrypt (iv : list byte) (msg hashedPassword : jsstring)
  : result jsstring :=
  raw ← HexEncoder.parse hashedPassword;
  key ← importKey_AES raw;
  encrypted ← subtle_encrypt key iv (UTF8Encoder.parse msg);
  Ok (HexEncoder.stringify iv ++ HexEncoder.stringify encrypted).

Definition decrypt (encryptedMsg hashedPassword : jsstring) : result jsstring :=
  let ivLength := IV_BITS / HEX_BITS in
  iv ← HexEncoder.parse (substring encryptedMsg 0 ivLength);
  let encrypted := substring_from encryptedMsg ivLength in
  raw ← HexEncoder.parse hashedPassword;
  key ← importKey_AES raw;
  data ← HexEncoder.parse encrypted;
  outBuffer ← subtle_decrypt key iv data;
  Ok (UTF8Encoder.stringify outBuffer).

End Engine.

(** ** The process: environment, file system, entropy *)

Definition INDEX_PATH : string := "index.html".
Definition INDEX_BAK_PATH : string := "index.html.bak".
Definition DATA_PATH : string := "data/stats.json".
Definition DATA_ENC_PATH : string := "data/stats.json.enc".
Definition CONFIG_PATH : string := ".staticrypt.json".
Definition ENCRYPTED_DIR : string := "encrypted".
Definition ENCRYPTED_INDEX_PATH : string := "encrypted/index.html".

(** The platform calls a run makes, in the order it makes them. *)
Inductive event : Type :=
| EvExists (path : string)
| EvReadFile (path : string)
| EvWriteFile (path : string) (data : jsstring)
| EvCopyFile (src dst : string)
| EvUnlink (path : string)
| EvRm (path : string)
| EvRandom (n : nat)
| EvHashPassword
| EvExec (succeeded : bool).

(** Files are kept by their path under the project root, with the text
    that [readFileSync(path, 'utf8')] returns. *)
Record world : Type := {
  STATICRYPT_PASSWORD : option jsstring;
  files : gmap string jsstring;
  entropy : nat -> byte;
  drawn : nat;
  trace : list event
}.

Definition log (e : event) (w : world) : world :=
  {| STATICRYPT_PASSWORD := STATICRYPT_PASSWORD w; files := files w;
     entropy := entropy w; drawn := drawn w; trace := trace w ++ [e] |}.

Definition set_files (f : gmap string jsstring) (w : world) : world :=
  {| STATICRYPT_PASSWORD := STATICRYPT_PASSWORD w; files := f;
     entropy := entropy w; drawn := drawn w; trace := trace w |}.

Definition advance (n : nat) (w : world) : world :=
  {| STATICRYPT_PASSWORD := STATICRYPT_PASSWORD w; files := files w;
     entropy := entropy w; drawn := (drawn w + n)%nat; trace := trace w |}.

(** How a computation ends: with a value, by [process.exit(code)], or by
    an exception. *)
Inductive outcome (A : Type) : Type :=
| Done (a : A)
| Exit (code : Z)
| Raise (e : exn).
Arguments Done {A} a.
Arguments Exit {A} code.
Arguments Raise {A} e.

Definition proc (A : Type) : Type := world -> world * outcome A.

#[global] Instance proc_ret : MRet proc := fun A a w => (w, Done a).

#[global] Instance proc_bind : MBind proc := fun A B k m w =>
  match m w with
  | (w', Done a) => k a w'
  | (w', Exit c) => (w', Exit c)
  | (w', Raise e) => (w', Raise e)
  end.

Definition exit {A} (code : Z) : proc A := fun w => (w, Exit code).

Definition lift {A} (r : result A) : proc A := fun w =>
  match r with
  | Ok a => (w, Done a)
  | Throw e => (w, Raise e)
  end.

(** [try { body } catch (error) { handler }] *)
Definition try_catch {A} (body : proc A) (handler : exn -> proc A) : proc A :=
  fun w =>
    match body w with
    | (w', Raise e) => handler e w'
    | r => r
    end.

Definition getenv_password : proc (option jsstring) := fun w =>
  (w, Done (STATICRYPT_PASSWORD w)).

(** [!password]: undefined or the empty string. *)
Definition falsy (password : option jsstring) : bool :=
  match password with
  | None | Some [] => true
  | Some (_ :: _) => false
  end.

Definition string_of (password : option jsstring) : jsstring :=
  default [] password.

Definition existsSync (path : string) : proc bool := fun w =>
  (log (EvExists path) w,
   Done (match files w !! path with Some _ => true | None => false end)).

Definition readFileSync (path : string) : proc jsstring := fun w =>
  let w := log (EvReadFile path) w in
  match files w !! path with
  | Some data => (w, Done data)
  | None => (w, Raise (ENOENT path))
  end.

Definition writeFileSync (path : string) (data : jsstring) : proc unit := fun w =>
  let w := log (EvWriteFile path data) w in
  (set_files (<[path := data]> (files w)) w, Done tt).

Definition copyFileSync (src dst : string) : proc unit := fun w =>
  let w := log (EvCopyFile src dst) w in
  match files w !! src with
  | Some data => (set_files (<[dst := data]> (files w)) w, Done tt)
  | None => (w, Raise (ENOENT src))
  end.

Definition unlinkSync (path : string) : proc unit := fun w =>
  let w := log (EvUnlink path) w in
  match files w !! path with
  | Some _ => (set_files (delete path (files w)) w, Done tt)
  | None => (w, Raise (ENOENT path))
  end.

Definition under (dir path : string) : bool :=
  String.prefix (dir ++ "/") path.

(** [rmSync(dir, { recursive: true })] *)
Definition rmSync (dir : string) : proc unit := fun w =>
  let w := log (EvRm dir) w in
  let kept := filter (fun kv => under dir kv.1 = false) (files w) in
  if bool_decide (kept = files w) then (w, Raise (ENOENT dir))
  else (set_files kept w, Done tt).

(** [crypto.getRandomValues(new Uint8Array(n))] *)
Definition getRandomValues (n : nat) : proc (list byte) := fun w =>
  let w := log (EvRandom n) w in
  (advance n w, Done (map (entropy w) (seq (drawn w) n))).

(** ** The host: JSON, the document patches, the StatiCrypt process *)

Class Host : Type := {
  json : Type;
  JSON_parse : jsstring -> result json;
  (** [JSON.stringify(value, null, 2)] *)
  JSON_stringify : json -> jsstring;
  (** the object [{ salt: s }] *)
  salt_object : jsstring -> json;
  (** [config.salt], as the text the encoder reads *)
  get_salt : json -> result jsstring;
  (** [indexHtml.replace('</head>', cryptoScript + '</head>')], the script
      carrying the salt *)
  inject_cryptoScript : jsstring -> jsstring -> jsstring;
  (** the replacement of the [loadData] function *)
  replace_loadData : jsstring -> jsstring;
  (** the logo before the title of the generated form *)
  add_logo : jsstring -> jsstring;
  (** the patch that stores the password whatever the checkbox says *)
  always_store_password : jsstring -> jsstring;
  (** [npx staticrypt index.html -p password ...] run in the project
      root: whether it succeeded, and the files it leaves *)
  staticrypt : gmap string jsstring -> jsstring -> bool * gmap string jsstring
}.

Section Workflows.
Context {crypto : WebCrypto} {host : Host}.

Definition execSync_staticrypt (password : jsstring) : proc unit := fun w =>
  match staticrypt (files w) password with
  | (true, f) => (set_files f (log (EvExec true) w), Done tt)
  | (false, f) => (set_files f (log (EvExec false) w), Raise ExecError)
  end.

(** [await hashPassword(password, salt)] in a workflow. *)
Definition do_hashPassword (password salt : jsstring) : proc jsstring := fun w =>
  (log EvHashPassword w, Done (hashPassword password salt)).

Definition generateRandomSalt : proc jsstring :=
  bytes ← getRandomValues (Z.to_nat (128 / 8));
  mret (HexEncoder.stringify bytes).

Definition loadOrCreateConfig : proc json :=
  present ← existsSync CONFIG_PATH;
  if present : bool then
    text ← readFileSync CONFIG_PATH;
    lift (JSON_parse text)
  else
    salt ← generateRandomSalt;
    let config := salt_object salt in
    writeFileSync CONFIG_PATH (JSON_stringify config);;
    mret config.

(** [main] of [scripts/encrypt.js], the full publish. *)
Definition main_encrypt : proc unit :=
  password ← getenv_password;
  if falsy password then exit 1 else
  let password := string_of password in
  present ← existsSync DATA_PATH;
  if negb present then exit 1 else
  config ← loadOrCreateConfig;
  salt ← lift (get_salt config);
  hashedPassword ← do_hashPassword password salt;
  dataContent ← readFileSync DATA_PATH;
  iv ← getRandomValues (Z.to_nat (IV_BITS / 8));
  encryptedData ← lift (encrypt iv dataContent hashedPassword);
  writeFileSync DATA_ENC_PATH encryptedData;;
  backup ← existsSync INDEX_BAK_PATH;
  (if backup : bool then copyFileSync INDEX_BAK_PATH INDEX_PATH
   else copyFileSync INDEX_PATH INDEX_BAK_PATH);;
  indexHtml ← readFileSync INDEX_PATH;
  let indexHtml := inject_cryptoScript salt indexHtml in
  let indexHtml := replace_loadData indexHtml in
  writeFileSync INDEX_PATH indexHtml;;
  try_catch (execSync_staticrypt password) (fun _ => exit 1);;
  generated ← existsSync ENCRYPTED_INDEX_PATH;
  (if generated : bool then
     encryptedHtml ← readFileSync ENCRYPTED_INDEX_PATH;
     let encryptedHtml := add_logo encryptedHtml in
     let encryptedHtml := always_store_password encryptedHtml in
     writeFileSync INDEX_PATH encryptedHtml;;
     rmSync ENCRYPTED_DIR
   else mret tt);;
  plain ← existsSync DATA_PATH;
  if plain : bool then unlinkSync DATA_PATH else mret tt.

(** [main] of the data-only encryption script. *)
Definition main_encrypt_data : proc unit :=
  password ← getenv_password;
  if falsy password then exit 1 else
  let password := string_of password in
  present ← existsSync DATA_PATH;
  if negb present then exit 1 else
  configured ← existsSync CONFIG_PATH;
  if negb configured then exit 1 else
  text ← readFileSync CONFIG_PATH;
  config ← lift (JSON_parse text);
  salt ← lift (get_salt config);
  hashedPassword ← do_hashPassword password salt;
  dataContent ← readFileSync DATA_PATH;
  iv ← getRandomValues (Z.to_nat (IV_BITS / 8));
  encryptedData ← lift (encrypt iv dataContent hashedPassword);
  writeFileSync DATA_ENC_PATH encryptedData;;
  unlinkSync DATA_PATH.

(** [main] of the decryption script. *)
Definition main_decrypt : proc unit :=
  password ← getenv_password;
  if falsy password then exit 1 else
  let password := string_of password in
  present ← existsSync DATA_ENC_PATH;
  if negb present then exit 0 else
  configured ← existsSync CONFIG_PATH;
  if negb configured then exit 1 else
  text ← readFileSync CONFIG_PATH;
  config ← lift (JSON_parse text);
  salt ← lift (get_salt config);
  hashedPassword ← do_hashPassword password salt;
  encryptedData ← readFileSync DATA_ENC_PATH;
  try_catch
    (decryptedData ← lift (decrypt encryptedData hashedPassword);
     lift (JSON_parse decryptedData);;
     writeFileSync DATA_PATH decryptedData)
    (fun _ => exit 1).

(** A script from start to end: [main().catch(err => process.exit(1))],
    and exit code 0 when [main] returns. *)
Definition run (main : proc unit) (w : world) : world * Z :=
  match main w with
  | (w', Done _) => (w', 0)
  | (w', Exit code) => (w', code)
  | (w', Raise _) => (w', 1)
  end.

End Workflows.

(** ** What the scripts rely on from the platform *)

(** PBKDF2 returns the number of bits asked for: 256 bits are 32 bytes. *)
Definition deriveBits_256 (crypto : WebCrypto) : Prop :=
  forall h iterations salt password,
    length (subtle_deriveBits h iterations salt password 256) = 32%nat.

(** AES-CBC with PKCS#7 padding: under a 256-bit key and a 16-byte IV,
    encryption succeeds, and decryption under the same key and IV gives
    the data back. *)
Definition aes_cbc_correct (crypto : WebCrypto) : Prop :=
  forall key iv data,
    length key = 32%nat -> length iv = 16%nat ->
    exists ct, subtle_encrypt key iv data = Ok ct /\
               subtle_decrypt key iv ct = Ok data.

(** A process as it starts: nothing drawn from the entropy source, no
    call made yet. *)
Definition boot (password : option jsstring) (fs : gmap string jsstring)
    (ent : nat -> byte) : world :=
  {| STATICRYPT_PASSWORD := password; files := fs; entropy := ent;
     drawn := 0; trace := [] |}.

(** ** Reading a trace *)

Definition is_write (path : string) (e : event) : bool :=
  match e with
  | EvWriteFile p _ => String.eqb p path
  | _ => false
  end.

Definition is_unlink (path : string) (e : event) : bool :=
  match e with
  | EvUnlink p => String.eqb p path
  | _ => false
  end.

Definition is_exec (e : event) : bool :=
  match e with
  | EvExec _ => true
  | _ => false
  end.

(** An event without the text it carries. *)
Definition without_data (e : event) : event :=
  match e with
  | EvWriteFile p _ => EvWriteFile p []
  | _ => e
  end.

Definition is_failed_exec (e : event) : bool :=
  match e with
  | EvExec false => true
  | _ => false
  end.

(** A call that can remove a file: an unlink, a recursive removal, the
    external process. *)
Definition may_delete (e : event) : bool :=
  match e with
  | EvUnlink _ | EvRm _ | EvExec _ => true
  | _ => false
  end.

(** A call that changes the files. *)
Definition is_mutation (e : event) : bool :=
  match e with
  | EvWriteFile _ _ | EvCopyFile _ _ | EvUnlink _ | EvRm _ | EvExec _ => true
  | _ => false
  end.

(** Every event satisfying [after] has an earlier event satisfying
    [before]. *)
Definition preceded_by (before after : event -> bool) (tr : list event) : Prop :=
  forall pre e post,
    tr = pre ++ e :: post -> after e = true ->
    exists e', In e' pre /\ before e' = true.

(** The same, computed along the trace; [seen] tells whether [before]
    has occurred. *)
Fixpoint only_after (before after : event -> bool) (seen : bool)
    (tr : list event) : bool :=
  match tr with
  | [] => true
  | e :: r =>
      (negb (after e) || seen) && only_after before after (seen || before e) r
  end.

(** What C7 asks of a run from the files [fs]: the plaintext is unlinked,
    and any call that can remove a file is made, only after the
    ciphertext was written; a run that never wrote the ciphertext has
    neither unlinked the plaintext nor changed it; a run that ends well
    leaves no plaintext. *)
Definition deletes_after_write (fs : gmap string jsstring) (r : world * Z) : Prop :=
  preceded_by (is_write DATA_ENC_PATH) (is_unlink DATA_PATH) (trace r.1) /\
  preceded_by (is_write DATA_ENC_PATH) may_delete (trace r.1) /\
  (existsb (is_write DATA_ENC_PATH) (trace r.1) = false ->
     existsb (is_unlink DATA_PATH) (trace r.1) = false /\
     files r.1 !! DATA_PATH = fs !! DATA_PATH) /\
  (r.2 = 0 -> files r.1 !! DATA_PATH = None).

(** What holds of the full publish in place of C6: the generator runs
    after the ciphertext was written; the plaintext is unlinked only
    after the generator has run and the host document was written, as the
    last call of a run that ends well; when the generator fails the run
    ends there with code 1, the plaintext not unlinked. *)
Definition unlinks_plaintext_last (r : world * Z) : Prop :=
  preceded_by (is_write DATA_ENC_PATH) is_exec (trace r.1) /\
  preceded_by is_exec (is_unlink DATA_PATH) (trace r.1) /\
  preceded_by (is_write INDEX_PATH) (is_unlink DATA_PATH) (trace r.1) /\
  (existsb (is_unlink DATA_PATH) (trace r.1) = true ->
     last (trace r.1) = Some (EvUnlink DATA_PATH) /\ r.2 = 0) /\
  (existsb is_failed_exec (trace r.1) = true ->
     last (trace r.1) = Some (EvExec false) /\ r.2 = 1 /\
     existsb (is_unlink DATA_PATH) (trace r.1) = false).

(** A call on the host document [index.html]: it is read, written, or
    copied from or to. *)
Definition is_host_patch (e : event) : bool :=
  match e with
  | EvReadFile p => String.eqb p INDEX_PATH
  | EvWriteFile p _ => String.eqb p INDEX_PATH
  | EvCopyFile src dst => String.eqb src INDEX_PATH || String.eqb dst INDEX_PATH
  | _ => false
  end.

(** No event satisfying [first] comes after an event satisfying
    [later]. *)
Definition never_after (first later : event -> bool) (tr : list event) : Prop :=
  forall pre e post,
    tr = pre ++ e :: post -> later e = true -> existsb first post = false.

(** The same, computed along the trace. *)
Fixpoint none_after (first later : event -> bool) (tr : list event) : bool :=
  match tr with
  | [] => true
  | e :: r =>
      (negb (later e) || negb (existsb first r)) && none_after first later r
  end.

(** Where the full publish patches the host document: every call on
    [index.html], and the generator, come after the write of the
    encrypted artifact and never after the unlink of the plaintext; the
    generator is called on the patched document; a run that ends well
    has written the artifact, patched the document and run the
    generator. *)
Definition patches_between_write_and_unlink (r : world * Z) : Prop :=
  preceded_by (is_write DATA_ENC_PATH) is_host_patch (trace r.1) /\
  never_after is_host_patch (is_unlink DATA_PATH) (trace r.1) /\
  never_after is_exec (is_unlink DATA_PATH) (trace r.1) /\
  preceded_by (is_write INDEX_PATH) is_exec (trace r.1) /\
  (r.2 = 0 ->
     existsb (is_write DATA_ENC_PATH) (trace r.1) = true /\
     existsb (is_write INDEX_PATH) (trace r.1) = true /\
     existsb is_exec (trace r.1) = true /\
     existsb is_failed_exec (trace r.1) = false).

(** ** A stand-in platform

    A cipher, a key derivation and a host that satisfy what the
    development assumes of the platform, on which the statements are run
    on concrete inputs. *)

Module Toy.

Definition deriveBits (h : hash_algorithm) (iterations : Z)
    (salt password : list byte) (len : Z) : list byte :=
  let n := Z.to_nat (len / 8) in
  take n (password ++ salt ++ repeat x00 n).

Definition usable (key iv : list byte) : bool :=
  (Z.of_nat (length key) =? 32) && (Z.of_nat (length iv) =? 16).

Definition encrypt (key iv data : list byte) : result (list byte) :=
  if usable key iv then Ok (rev (iv ++ data)) else Throw CryptoError.

Definition decrypt (key iv ct : list byte) : result (list byte) :=
  if usable key iv then Ok (drop (length iv) (rev ct)) else Throw CryptoError.

Definition crypto : WebCrypto :=
  {| subtle_deriveBits := deriveBits;
     subtle_encrypt := encrypt;
     subtle_decrypt := decrypt |}.

(** A host whose documents are the text after an opening brace, and
    whose generator succeeds or fails as [generates] says. *)
Definition host (generates : bool) : Host :=
  {| json := jsstring;
     JSON_parse := fun text =>
       match text with
       | c :: r => if c =? 0x7B then Ok r else Throw SyntaxError
       | [] => Throw SyntaxError
       end;
     JSON_stringify := fun j => 0x7B :: j;
     salt_object := fun s => s;
     get_salt := fun j => Ok j;
     inject_cryptoScript := fun salt html => html ++ salt;
     replace_loadData := fun html => html;
     add_logo := fun html => html;
     always_store_password := fun html => html;
     staticrypt := fun fs password =>
       if generates
       then (true, <[ENCRYPTED_INDEX_PATH := js "<html>"]> fs)
       else (false, fs) |}.

Definition iv0 : list byte := repeat x00 16.
Definition iv1 : list byte := repeat x01 16.
Definition ent0 : nat -> byte := fun _ => x2a.

Definition password : jsstring := js "correct-horse".
Definition salt : jsstring := js "00112233445566778899aabbccddeeff".

(** The text of the spec's scenario: an object with the one member
    [a], of value 1. *)
Definition sample_json : jsstring :=
  [0x7B; 0x22; 0x61; 0x22; 0x3A; 0x31; 0x7D].

(** A project ready for its first encryption. *)
Definition fresh_project : gmap string jsstring :=
  {[ DATA_PATH := sample_json; INDEX_PATH := js "<html></html>" ]}.

End Toy.

(** ** Words for further properties of the codecs *)

(** The upper-case form of a lower-case hex letter; any other code unit
    is kept. *)
Definition to_upper_hex (c : Z) : Z :=
  if (0x61 <=? c) && (c <=? 0x66) then c - 0x20 else c.

(** A code unit of a JavaScript string is below 2^16. *)
Definition is_code_unit (c : Z) : Prop := 0 <= c <= 0xFFFF.

(** [s.toWellFormed()]: every unpaired surrogate replaced by U+FFFD. *)
Fixpoint toWellFormed (s : jsstring) : jsstring :=
  match s with
  | [] => []
  | c :: r =>
      if is_lead_surrogate c then
        match r with
        | d :: r' =>
            if is_trail_surrogate d then c :: d :: toWellFormed r'
            else 0xFFFD :: toWellFormed r
        | [] => [0xFFFD]
        end
      else if is_trail_surrogate c then 0xFFFD :: toWellFormed r
      else c :: toWellFormed r
  end.

(** A string without its first code unit when that is U+FEFF. *)
Definition without_bom (s : jsstring) : jsstring :=
  match s with
  | c :: r => if c =? 0xFEFF then r else s
  | [] => []
  end.

(** What the UTF-8 decoder holds between two bytes: no sequence pending,
    or the part of a code point read so far, which the bytes still
    awaited can only complete to a scalar value. *)
Definition decoder_ok (st : utf8_decoder) : Prop :=
  let cp := code_point st in
  let plain := lower_boundary st = 0x80 /\ upper_boundary st = 0xBF in
  let narrowed := 0x80 <= lower_boundary st /\ upper_boundary st <= 0xBF in
  bytes_needed st = 0 \/
  (bytes_needed st = 1 /\ bytes_seen st = 0 /\ 2 <= cp <= 31 /\ plain) \/
  (bytes_needed st = 2 /\ bytes_seen st = 0 /\ 0 <= cp <= 15 /\ narrowed /\
   (cp = 0 -> lower_boundary st = 0xA0) /\
   (cp = 13 -> upper_boundary st = 0x9F)) \/
  (bytes_needed st = 2 /\ bytes_seen st = 1 /\ 32 <= cp <= 1023 /\
   ~ 864 <= cp <= 895 /\ plain) \/
  (bytes_needed st = 3 /\ bytes_seen st = 0 /\ 0 <= cp <= 4 /\ narrowed /\
   (cp = 0 -> lower_boundary st = 0x90) /\
   (cp = 4 -> upper_boundary st = 0x8F)) \/
  (bytes_needed st = 3 /\ bytes_seen st = 1 /\ 16 <= cp <= 271 /\ plain) \/
  (bytes_needed st = 3 /\ bytes_seen st = 2 /\ 1024 <= cp <= 17407 /\ plain).

(** The letter a, the euro sign and a face: one, three and four bytes of
    UTF-8, the last a surrogate pair. *)
Definition sample_text : jsstring := [0x61; 0x20AC; 0xD83D; 0xDE00].

(** ** Words for further properties of the workflows *)

(** A call of the script that creates, replaces or removes the file at
    [path]. *)
Definition changes (path : string) (e : event) : bool :=
  match e with
  | EvWriteFile p _ | EvUnlink p => String.eqb p path
  | EvCopyFile _ dst => String.eqb dst path
  | _ => false
  end.

Definition is_random (e : event) : bool :=
  match e with
  | EvRandom _ => true
  | _ => false
  end.

(** A project with a plaintext and a salt configuration, ready for a
    daily update. *)
Definition configured_project : gmap string jsstring :=
  {[ DATA_PATH := Toy.sample_json; CONFIG_PATH := 0x7B :: Toy.salt ]}.

(** ** The daily snapshots of the scraper *)

(** An entry of [stats.dailySnapshots]: its [date], as [formatDate]
    wrote it, and the rest of the object. *)
Record snapshot (A : Type) : Type := {
  date : jsstring;
  rest : A
}.
Arguments date {A} s.
Arguments rest {A} s.

(** The loop of [getPreviousSnapshot], with [i] indices still to visit:
    it is at index [i - 1] and goes down to 0. *)
Fixpoint getPreviousSnapshot_loop {A} (today : jsstring)
    (snapshots : list (snapshot A)) (i : nat) : option (snapshot A) :=
  match i with
  | O => None
  | S i' =>
      match snapshots !! i' with
      | Some s =>
          if bool_decide (date s = today)
          then getPreviousSnapshot_loop today snapshots i'
          else Some s
      | None => None
      end
  end.

(** [getPreviousSnapshot(snapshots)] of [scraper/utils.js], on the day
    [today] that [formatDate()] returns; [None] is both an absent array
    and the result [null]. *)
Definition getPreviousSnapshot {A} (today : jsstring)
    (snapshots : option (list (snapshot A))) : option (snapshot A) :=
  match snapshots with
  | None => None
  | Some l =>
      if (length l =? 0)%nat then None
      else getPreviousSnapshot_loop today l (length l)
  end.

(** [array.findIndex(p)]; [None] is -1. *)
Fixpoint findIndex {A} (p : A -> bool) (l : list A) : option nat :=
  match l with
  | [] => None
  | x :: r => if p x then Some 0%nat else S <$> findIndex p r
  end.

(** The end of the daily run in [runScraper]: today's snapshot replaces
    the entry of the same date or is pushed at the end, and the last 365
    entries are kept. *)
Definition storeSnapshot {A} (today : jsstring) (snap : snapshot A)
    (dailySnapshots : list (snapshot A)) : list (snapshot A) :=
  let stored :=
    match findIndex (fun s => bool_decide (date s = today)) dailySnapshots with
    | Some todayIndex => <[todayIndex := snap]> dailySnapshots
    | None => dailySnapshots ++ [snap]
    end in
  if (365 <? length stored)%nat
  then drop (length stored - 365) stored    (* slice(-365) *)
  else stored.
Lemma substring_app_mid (pre mid post : jsstring) :
  substring (pre ++ mid ++ post) (Z.of_nat (length pre))
    (Z.of_nat (length pre) + Z.of_nat (length mid)) = mid.
Proof.
  unfold substring. rewrite !length_app.
  set (p := length pre). set (m := length mid). set (q := length post).
  replace (Z.min (Z.max (Z.of_nat p) 0) (Z.of_nat (p + (m + q)))) with (Z.of_nat p) by lia.
  replace (Z.min (Z.max (Z.of_nat p + Z.of_nat m) 0) (Z.of_nat (p + (m + q))))
    with (Z.of_nat (p + m)) by lia.
  replace (Z.min (Z.of_nat p) (Z.of_nat (p + m))) with (Z.of_nat p) by lia.
  replace (Z.max (Z.of_nat p) (Z.of_nat (p + m)) - Z.of_nat p) with (Z.of_nat m) by lia.
  rewrite !Nat2Z.id. subst p m.
  rewrite drop_app_length, take_app_length. reflexivity.
Qed.

Lemma substring_from_app (pre post : jsstring) :
  substring_from (pre ++ post) (Z.of_nat (length pre)) = post.
Proof.
  unfold substring_from.
  pose proof (substring_app_mid pre post []) as H.
  rewrite app_nil_r in H. rewrite length_app, Nat2Z.inj_add. exact H.
Qed.

Lemma ToUint8_Z_of_byte (b : byte) : ToUint8 (Z_of_byte b) = b.
Proof. destruct b; reflexivity. Qed.

Lemma Z_of_byte_range (b : byte) : 0 <= Z_of_byte b < 256.
Proof.
  unfold Z_of_byte. pose proof (Byte.to_N_bounded b). lia.
Qed.

Lemma Z_of_byte_of_Z (z : Z) : 0 <= z < 256 -> Z_of_byte (byte_of_Z z) = z.
Proof.
  intros Hz. unfold Z_of_byte, byte_of_Z.
  rewrite Z.mod_small by lia.
  destruct (Byte.of_N (Z.to_N z)) as [b|] eqn:E.
  - apply Byte.to_of_N in E. rewrite E. lia.
  - apply Byte.of_N_None_iff in E. lia.
Qed.

Lemma byteString_spec (b : byte) :
  length (HexEncoder.byteString b) = 2%nat /\
  parseInt16 (HexEncoder.byteString b) = Some (Z_of_byte b).
Proof. destruct b; split; reflexivity. Qed.

Lemma stringify_cons (b : byte) (bs : list byte) :
  HexEncoder.stringify (b :: bs) = HexEncoder.byteString b ++ HexEncoder.stringify bs.
Proof. reflexivity. Qed.

Lemma stringify_app (a b : list byte) :
  HexEncoder.stringify (a ++ b) = HexEncoder.stringify a ++ HexEncoder.stringify b.
Proof. unfold HexEncoder.stringify. now rewrite map_app, concat_app. Qed.

Lemma length_stringify (bs : list byte) :
  length (HexEncoder.stringify bs) = (2 * length bs)%nat.
Proof.
  induction bs as [|b bs IH]; [reflexivity|].
  rewrite stringify_cons, length_app, IH.
  destruct (byteString_spec b) as [-> _]. simpl. lia.
Qed.

Lemma parse_loop_stringify (bs : list byte) (pre : jsstring) :
  HexEncoder.parse_loop (pre ++ HexEncoder.stringify bs)
    (Z.of_nat (length pre)) (length bs) = Ok bs.
Proof.
  revert pre. induction bs as [|b bs IH]; intros pre; [reflexivity|].
  destruct (byteString_spec b) as [Hlen Hval].
  rewrite stringify_cons. cbn [HexEncoder.parse_loop length].
  replace (Z.of_nat (length pre) + 2)
    with (Z.of_nat (length pre) + Z.of_nat (length (HexEncoder.byteString b)))
    by (rewrite Hlen; lia).
  rewrite substring_app_mid, Hval.
  rewrite app_assoc.
  replace (Z.of_nat (length pre) + Z.of_nat (length (HexEncoder.byteString b)))
    with (Z.of_nat (length (pre ++ HexEncoder.byteString b)))
    by (rewrite length_app; lia).
  rewrite IH. cbn. now rewrite ToUint8_Z_of_byte.
Qed.

(** Decoding what the encoder wrote gives the bytes back. *)
Lemma parse_stringify (bs : list byte) :
  HexEncoder.parse (HexEncoder.stringify bs) = Ok bs.
Proof.
  unfold HexEncoder.parse. rewrite length_stringify.
  replace (Z.of_nat (2 * length bs) mod 2 =? 0) with true
    by (symmetry; apply Z.eqb_eq; rewrite Nat2Z.inj_mul, Z.mul_comm; apply Z_mod_mult).
  cbn [negb].
  replace (Z.to_nat (Z.of_nat (2 * length bs) / 2)) with (length bs).
  - apply (parse_loop_stringify bs []).
  - rewrite Nat2Z.inj_mul, Z.mul_comm, Z_div_mult by lia. now rewrite Nat2Z.id.
Qed.

Lemma stringify_inj (a b : list byte) :
  HexEncoder.stringify a = HexEncoder.stringify b -> a = b.
Proof.
  intros H. pose proof (parse_stringify a) as Ha.
  rewrite H, parse_stringify in Ha. congruence.
Qed.

Lemma substring_take (s : jsstring) (n : nat) :
  substring s 0 (Z.of_nat n) = take n s.
Proof.
  unfold substring.
  replace (Z.min (Z.max 0 0) (Z.of_nat (length s))) with 0 by lia.
  destruct (Nat.le_gt_cases n (length s)).
  - replace (Z.min (Z.max (Z.of_nat n) 0) (Z.of_nat (length s))) with (Z.of_nat n) by lia.
    replace (Z.max 0 (Z.of_nat n) - Z.min 0 (Z.of_nat n)) with (Z.of_nat n) by lia.
    replace (Z.min 0 (Z.of_nat n)) with 0 by lia.
    rewrite Nat2Z.id. change (Z.to_nat 0) with 0%nat. now rewrite drop_0.
  - replace (Z.min (Z.max (Z.of_nat n) 0) (Z.of_nat (length s)))
      with (Z.of_nat (length s)) by lia.
    replace (Z.max 0 (Z.of_nat (length s)) - Z.min 0 (Z.of_nat (length s)))
      with (Z.of_nat (length s)) by lia.
    replace (Z.min 0 (Z.of_nat (length s))) with 0 by lia.
    rewrite Nat2Z.id. change (Z.to_nat 0) with 0%nat. rewrite drop_0.
    rewrite !take_ge by lia. reflexivity.
Qed.

Lemma substring_from_drop (s : jsstring) (n : nat) :
  substring_from s (Z.of_nat n) = drop n s.
Proof.
  unfold substring_from, substring.
  destruct (Nat.le_gt_cases n (length s)).
  - replace (Z.min (Z.max (Z.of_nat n) 0) (Z.of_nat (length s))) with (Z.of_nat n) by lia.
    replace (Z.min (Z.max (Z.of_nat (length s)) 0) (Z.of_nat (length s)))
      with (Z.of_nat (length s)) by lia.
    replace (Z.min (Z.of_nat n) (Z.of_nat (length s))) with (Z.of_nat n) by lia.
    replace (Z.max (Z.of_nat n) (Z.of_nat (length s)) - Z.of_nat n)
      with (Z.of_nat (length s - n)) by lia.
    rewrite !Nat2Z.id. apply take_ge. rewrite length_drop. lia.
  - replace (Z.min (Z.max (Z.of_nat n) 0) (Z.of_nat (length s)))
      with (Z.of_nat (length s)) by lia.
    replace (Z.min (Z.max (Z.of_nat (length s)) 0) (Z.of_nat (length s)))
      with (Z.of_nat (length s)) by lia.
    rewrite Z.min_id, Z.max_id, Z.sub_diag, Nat2Z.id.
    change (Z.to_nat 0) with 0%nat. rewrite take_0.
    rewrite drop_ge by lia. reflexivity.
Qed.

(** ** UTF-8 and UTF-16: what survives encoding and decoding *)

Lemma land_0x3F (x : Z) : Z.land x 0x3F = x mod 64.
Proof. change 0x3F with (Z.ones 6). now rewrite Z.land_ones by lia. Qed.

Lemma land_0x1F (x : Z) : Z.land x 0x1F = x mod 32.
Proof. change 0x1F with (Z.ones 5). now rewrite Z.land_ones by lia. Qed.

Lemma land_0xF (x : Z) : Z.land x 0xF = x mod 16.
Proof. change 0xF with (Z.ones 4). now rewrite Z.land_ones by lia. Qed.

Lemma land_0x7 (x : Z) : Z.land x 0x7 = x mod 8.
Proof. change 0x7 with (Z.ones 3). now rewrite Z.land_ones by lia. Qed.

Lemma land_0x3FF (x : Z) : Z.land x 0x3FF = x mod 1024.
Proof. change 0x3FF with (Z.ones 10). now rewrite Z.land_ones by lia. Qed.

Lemma lor_shiftl_6 (a b : Z) :
  Z.lor (Z.shiftl a 6) (Z.land b 0x3F) = a * 64 + b mod 64.
Proof.
  rewrite land_0x3F, Z.shiftl_mul_pow2 by lia. change (2 ^ 6) with 64.
  rewrite <- (Z.add_lor_land (a * 64) (b mod 64)).
  assert (Z.land (a * 64) (b mod 64) = 0) as ->; [|lia].
  apply Z.bits_inj'. intros n Hn. rewrite Z.land_spec, Z.bits_0.
  destruct (Z.lt_ge_cases n 6).
  - change 64 with (2 ^ 6) at 1. now rewrite Z.mul_pow2_bits_low by lia.
  - change 64 with (2 ^ 6) at 2. rewrite (Z.mod_pow2_bits_high b 6 n) by lia.
    apply andb_false_r.
Qed.

Lemma lor_0x80 (x : Z) : Z.lor 0x80 (Z.land x 0x3F) = 0x80 + x mod 64.
Proof. change 0x80 with (Z.shiftl 2 6) at 1. rewrite lor_shiftl_6. lia. Qed.

Lemma shiftr_6 (c : Z) : Z.shiftr c 6 = c / 64.
Proof. now rewrite Z.shiftr_div_pow2 by lia. Qed.

Lemma shiftr_10 (c : Z) : Z.shiftr c 10 = c / 1024.
Proof. now rewrite Z.shiftr_div_pow2 by lia. Qed.

Lemma shiftr_12 (c : Z) : Z.shiftr c 12 = c / 4096.
Proof. now rewrite Z.shiftr_div_pow2 by lia. Qed.

Lemma shiftr_18 (c : Z) : Z.shiftr c 18 = c / 262144.
Proof. now rewrite Z.shiftr_div_pow2 by lia. Qed.

(** Linear arithmetic with division and remainder by constants. *)
Ltac zlia := Z.div_mod_to_equations; lia.

(** Decides the comparisons of a goal by arithmetic, splitting on those
    that the context leaves open. *)
Ltac decide_cmp :=
  repeat match goal with
  | |- context [?a <=? ?b] =>
      first [ replace (a <=? b) with true by (symmetry; apply Z.leb_le; zlia)
            | replace (a <=? b) with false by (symmetry; apply Z.leb_gt; zlia)
            | destruct (Z.leb_spec a b) ]
  | |- context [?a <? ?b] =>
      first [ replace (a <? b) with true by (symmetry; apply Z.ltb_lt; zlia)
            | replace (a <? b) with false by (symmetry; apply Z.ltb_ge; zlia)
            | destruct (Z.ltb_spec a b) ]
  | |- context [?a =? ?b] =>
      first [ replace (a =? b) with true by (symmetry; apply Z.eqb_eq; zlia)
            | replace (a =? b) with false by (symmetry; apply Z.eqb_neq; zlia)
            | destruct (Z.eqb_spec a b) ]
  end.

Lemma utf8_encode_cp_bytes (c : Z) :
  utf8_encode_cp c =
    if c <=? 0x7F then [byte_of_Z c]
    else if c <=? 0x7FF then
      [byte_of_Z (c / 64 + 0xC0); byte_of_Z (0x80 + c mod 64)]
    else if c <=? 0xFFFF then
      [byte_of_Z (c / 4096 + 0xE0); byte_of_Z (0x80 + (c / 64) mod 64);
       byte_of_Z (0x80 + c mod 64)]
    else
      [byte_of_Z (c / 262144 + 0xF0); byte_of_Z (0x80 + (c / 4096) mod 64);
       byte_of_Z (0x80 + (c / 64) mod 64); byte_of_Z (0x80 + c mod 64)].
Proof.
  unfold utf8_encode_cp.
  destruct (c <=? 0x7F); [reflexivity|].
  destruct (c <=? 0x7FF); [|destruct (c <=? 0xFFFF)];
    cbn [utf8_continuation Z.of_nat Pos.of_succ_nat Pos.succ Z.mul Pos.mul Pos.add];
    rewrite ?lor_0x80, ?shiftr_6, ?shiftr_12, ?shiftr_18, ?Z.shiftr_0_r;
    reflexivity.
Qed.

Lemma utf8_decode_step (st : utf8_decoder) (b : byte) (r : list byte) :
  utf8_decode_from st (b :: r) =
    (utf8_handler st (Z_of_byte b)).1 ++
    utf8_decode_from (utf8_handler st (Z_of_byte b)).2 r.
Proof. cbn [utf8_decode_from]. now destruct (utf8_handler st (Z_of_byte b)). Qed.

Lemma utf8_handler_lead (st : utf8_decoder) (b : Z) :
  bytes_needed st = 0 -> utf8_handler st b = utf8_lead b.
Proof. intros H. unfold utf8_handler. now rewrite H. Qed.

Lemma utf8_handler_continuation (st : utf8_decoder) (b : Z) :
  bytes_needed st <> 0 ->
  lower_boundary st <= b <= upper_boundary st ->
  utf8_handler st b =
    if bytes_seen st + 1 =? bytes_needed st
    then ([code_point st * 64 + b mod 64], utf8_init)
    else ([], {| code_point := code_point st * 64 + b mod 64;
                 bytes_seen := bytes_seen st + 1;
                 bytes_needed := bytes_needed st;
                 lower_boundary := 0x80; upper_boundary := 0xBF |}).
Proof.
  intros Hn Hb. unfold utf8_handler.
  destruct (Z.eqb_spec (bytes_needed st) 0); [contradiction|].
  replace (lower_boundary st <=? b) with true by (symmetry; apply Z.leb_le; lia).
  replace (b <=? upper_boundary st) with true by (symmetry; apply Z.leb_le; lia).
  cbn [andb negb]. now rewrite lor_shiftl_6.
Qed.

Lemma utf8_lead_1 (b : Z) : b <= 0x7F -> utf8_lead b = ([b], utf8_init).
Proof. intros H. unfold utf8_lead. decide_cmp. reflexivity. Qed.

Lemma utf8_lead_2 (b : Z) :
  0xC2 <= b <= 0xDF ->
  utf8_lead b =
    ([], {| code_point := b mod 32; bytes_seen := 0; bytes_needed := 1;
            lower_boundary := 0x80; upper_boundary := 0xBF |}).
Proof.
  intros H. unfold utf8_lead. rewrite land_0x1F.
  replace (b <=? 0x7F) with false by (symmetry; apply Z.leb_gt; lia).
  replace (0xC2 <=? b) with true by (symmetry; apply Z.leb_le; lia).
  replace (b <=? 0xDF) with true by (symmetry; apply Z.leb_le; lia).
  reflexivity.
Qed.

Lemma utf8_lead_3 (b : Z) :
  0xE0 <= b <= 0xEF ->
  utf8_lead b =
    ([], {| code_point := b mod 16; bytes_seen := 0; bytes_needed := 2;
            lower_boundary := if b =? 0xE0 then 0xA0 else 0x80;
            upper_boundary := if b =? 0xED then 0x9F else 0xBF |}).
Proof.
  intros H. unfold utf8_lead. rewrite land_0xF.
  replace (b <=? 0x7F) with false by (symmetry; apply Z.leb_gt; lia).
  replace (b <=? 0xDF) with false by (symmetry; apply Z.leb_gt; lia).
  replace (0xE0 <=? b) with true by (symmetry; apply Z.leb_le; lia).
  replace (b <=? 0xEF) with true by (symmetry; apply Z.leb_le; lia).
  rewrite andb_false_r. reflexivity.
Qed.

Lemma utf8_lead_4 (b : Z) :
  0xF0 <= b <= 0xF4 ->
  utf8_lead b =
    ([], {| code_point := b mod 8; bytes_seen := 0; bytes_needed := 3;
            lower_boundary := if b =? 0xF0 then 0x90 else 0x80;
            upper_boundary := if b =? 0xF4 then 0x8F else 0xBF |}).
Proof.
  intros H. unfold utf8_lead. rewrite land_0x7.
  replace (b <=? 0x7F) with false by (symmetry; apply Z.leb_gt; lia).
  replace (b <=? 0xDF) with false by (symmetry; apply Z.leb_gt; lia).
  replace (b <=? 0xEF) with false by (symmetry; apply Z.leb_gt; lia).
  replace (0xF0 <=? b) with true by (symmetry; apply Z.leb_le; lia).
  replace (b <=? 0xF4) with true by (symmetry; apply Z.leb_le; lia).
  rewrite !andb_false_r. reflexivity.
Qed.

Ltac utf8_state :=
  cbn [fst snd app bytes_needed bytes_seen code_point lower_boundary
       upper_boundary utf8_init];
  repeat match goal with
  | |- context [?a + 1 =? ?n] =>
      let v := eval vm_compute in (a + 1 =? n) in
      change (a + 1 =? n) with v
  end;
  cbn [fst snd app bytes_needed bytes_seen code_point lower_boundary
       upper_boundary utf8_init].

(** The decoder reads back the bytes of one scalar value and is ready for
    the next. *)
Lemma utf8_decode_encode_cp (c : Z) (r : list byte) :
  is_scalar c ->
  utf8_decode_from utf8_init (utf8_encode_cp c ++ r) =
    c :: utf8_decode_from utf8_init r.
Proof.
  intros Hc. rewrite utf8_encode_cp_bytes. unfold is_scalar in Hc.
  destruct (Z.leb_spec c 0x7F); [|destruct (Z.leb_spec c 0x7FF); [|destruct (Z.leb_spec c 0xFFFF)]];
    cbn [app]; rewrite !utf8_decode_step, !Z_of_byte_of_Z by zlia;
    rewrite (utf8_handler_lead utf8_init) by reflexivity.
  - rewrite utf8_lead_1 by lia. reflexivity.
  - rewrite utf8_lead_2 by zlia. utf8_state.
    rewrite utf8_handler_continuation by (utf8_state; zlia). utf8_state.
    f_equal. zlia.
  - rewrite utf8_lead_3 by zlia. utf8_state.
    rewrite utf8_handler_continuation by (utf8_state; decide_cmp; zlia).
    utf8_state.
    rewrite utf8_handler_continuation by (utf8_state; zlia). utf8_state.
    f_equal. zlia.
  - rewrite utf8_lead_4 by zlia. utf8_state.
    rewrite utf8_handler_continuation by (utf8_state; decide_cmp; zlia).
    utf8_state.
    rewrite utf8_handler_continuation by (utf8_state; zlia). utf8_state.
    rewrite utf8_handler_continuation by (utf8_state; zlia). utf8_state.
    f_equal. zlia.
Qed.

Lemma utf8_decode_encode (cps : list Z) :
  Forall is_scalar cps ->
  utf8_decode_from utf8_init (flat_map utf8_encode_cp cps) = cps.
Proof.
  induction 1 as [|c cps Hc _ IH]; [reflexivity|].
  cbn [flat_map]. now rewrite utf8_decode_encode_cp, IH.
Qed.

Lemma utf16_units_pair (c d : Z) :
  is_lead_surrogate c = true -> is_trail_surrogate d = true ->
  utf16_units (0x10000 + (c - 0xD800) * 0x400 + (d - 0xDC00)) = [c; d].
Proof.
  unfold is_lead_surrogate, is_trail_surrogate, utf16_units.
  intros [Hc1 Hc2]%andb_prop [Hd1 Hd2]%andb_prop.
  apply Z.leb_le in Hc1, Hc2, Hd1, Hd2.
  rewrite shiftr_10, land_0x3FF.
  replace (_ <? _) with false by (symmetry; apply Z.ltb_ge; lia).
  f_equal; [|f_equal]; zlia.
Qed.

Lemma utf16_units_bmp (c : Z) : c <= 0xFFFF -> utf16_units c = [c].
Proof.
  intros H. unfold utf16_units.
  now replace (c <? 0x10000) with true by (symmetry; apply Z.ltb_lt; lia).
Qed.

(** On a well-formed string the scalar values are the string itself,
    read pair by pair. *)
Lemma code_points_well_formed (n : nat) (s : jsstring) :
  (length s <= n)%nat -> well_formed s = true ->
  Forall is_scalar (code_points s) /\
  flat_map utf16_units (code_points s) = s.
Proof.
  revert s. induction n as [|n IH]; intros s Hn Hwf.
  { destruct s; [split; [constructor|reflexivity]|cbn in Hn; lia]. }
  destruct s as [|c r]; [split; [constructor|reflexivity]|].
  cbn [well_formed code_points] in *.
  apply andb_prop in Hwf as [[Hc0 Hc1]%andb_prop Hwf].
  apply Z.leb_le in Hc0, Hc1.
  destruct (is_lead_surrogate c) eqn:Hlead.
  - destruct r as [|d r']; [discriminate|].
    apply andb_prop in Hwf as [Htrail Hwf]. rewrite Htrail.
    destruct (IH r') as [Hs Hu]; [cbn [length] in Hn; lia|assumption|].
    split.
    + constructor; [|assumption].
      unfold is_lead_surrogate, is_trail_surrogate in *.
      apply andb_prop in Hlead as [H1 H2], Htrail as [H3 H4].
      apply Z.leb_le in H1, H2, H3, H4. right. lia.
    + cbn [flat_map]. rewrite utf16_units_pair, Hu by assumption. reflexivity.
  - apply andb_prop in Hwf as [Htrail Hwf].
    apply negb_true_iff in Htrail. rewrite Htrail.
    destruct (IH r) as [Hs Hu]; [cbn [length] in Hn; lia|assumption|].
    split.
    + constructor; [|assumption].
      unfold is_lead_surrogate, is_trail_surrogate in *.
      apply andb_false_iff in Hlead, Htrail.
      rewrite !Z.leb_gt in Hlead, Htrail. unfold is_scalar. lia.
    + cbn [flat_map]. rewrite utf16_units_bmp, Hu by assumption. reflexivity.
Qed.

Lemma strip_bom_code_points (s : jsstring) :
  well_formed s = true -> starts_with_bom s = false ->
  strip_bom (code_points s) = code_points s.
Proof.
  destruct s as [|c r]; [reflexivity|].
  cbn [well_formed code_points starts_with_bom]. intros Hwf Hbom.
  apply Z.eqb_neq in Hbom.
  apply andb_prop in Hwf as [_ Hwf].
  destruct (is_lead_surrogate c) eqn:Hlead.
  - destruct r as [|d r']; [discriminate|].
    apply andb_prop in Hwf as [Htrail _]. rewrite Htrail.
    unfold is_lead_surrogate, is_trail_surrogate in *.
    apply andb_prop in Hlead as [H1 H2], Htrail as [H3 H4].
    apply Z.leb_le in H1, H2, H3, H4. unfold strip_bom.
    now replace (_ =? 0xFEFF) with false by (symmetry; apply Z.eqb_neq; lia).
  - apply andb_prop in Hwf as [Htrail _].
    apply negb_true_iff in Htrail. rewrite Htrail. unfold strip_bom.
    now replace (c =? 0xFEFF) with false by (symmetry; apply Z.eqb_neq; lia).
Qed.

(** [TextDecoder] gives back what [TextEncoder] read, for a well-formed
    string that does not start with U+FEFF. *)
Lemma UTF8Encoder_stringify_parse (s : jsstring) :
  well_formed s = true -> starts_with_bom s = false ->
  UTF8Encoder.stringify (UTF8Encoder.parse s) = s.
Proof.
  intros Hwf Hbom. unfold UTF8Encoder.stringify, UTF8Encoder.parse.
  destruct (code_points_well_formed (length s) s) as [Hs Hu]; [lia|assumption|].
  now rewrite utf8_decode_encode, strip_bom_code_points.
Qed.

(** A string of ASCII code units is encoded unit by unit. *)
Lemma UTF8Encoder_parse_ascii (s : jsstring) :
  Forall (fun c => 0 <= c <= 0x7F) s ->
  UTF8Encoder.parse s = map byte_of_Z s.
Proof.
  unfold UTF8Encoder.parse.
  induction 1 as [|c r Hc _ IH]; [reflexivity|].
  cbn [code_points map].
  unfold is_lead_surrogate, is_trail_surrogate.
  replace (0xD800 <=? c) with false by (symmetry; apply Z.leb_gt; lia).
  replace (0xDC00 <=? c) with false by (symmetry; apply Z.leb_gt; lia).
  cbn [andb flat_map]. rewrite IH. unfold utf8_encode_cp.
  now replace (c <=? 0x7F) with true by (symmetry; apply Z.leb_le; lia).
Qed.

Lemma byteString_lower_hex (b : byte) :
  forallb is_lower_hex (HexEncoder.byteString b) = true.
Proof. destruct b; reflexivity. Qed.

Lemma stringify_lower_hex (bs : list byte) :
  forallb is_lower_hex (HexEncoder.stringify bs) = true.
Proof.
  induction bs as [|b bs IH]; [reflexivity|].
  now rewrite stringify_cons, forallb_app, byteString_lower_hex, IH.
Qed.

Lemma lower_hex_ascii (s : jsstring) :
  forallb is_lower_hex s = true -> Forall (fun c => 0 <= c <= 0x7F) s.
Proof.
  intros H. apply List.Forall_forall. intros c Hin.
  rewrite forallb_forall in H. specialize (H c Hin).
  unfold is_lower_hex in H.
  apply orb_prop in H as [[H1 H2]%andb_prop | [H1 H2]%andb_prop];
    apply Z.leb_le in H1, H2; lia.
Qed.

(** ** The cipher wrapper *)

Lemma importKey_AES_256 (raw : list byte) :
  length raw = 32%nat -> importKey_AES raw = Ok raw.
Proof. intros H. unfold importKey_AES. now rewrite H. Qed.

Lemma toy_deriveBits_256 : deriveBits_256 Toy.crypto.
Proof.
  intros h it salt pw. cbn. unfold Toy.deriveBits.
  change (Z.to_nat (256 / 8)) with 32%nat.
  rewrite length_take, !length_app, repeat_length. lia.
Qed.

Lemma toy_aes_cbc_correct : aes_cbc_correct Toy.crypto.
Proof.
  intros key iv data Hk Hiv. exists (rev (iv ++ data)). cbn.
  assert (Toy.usable key iv = true) as Hu
    by (unfold Toy.usable; rewrite Hk, Hiv; reflexivity).
  unfold Toy.encrypt, Toy.decrypt. rewrite Hu.
  split; [reflexivity|].
  now rewrite rev_involutive, drop_app_length.
Qed.

Section EngineFacts.
Context {crypto : WebCrypto}.

(** What [decrypt] does with the positions of its argument. *)
Lemma decrypt_unfold (encryptedMsg hashedPassword : jsstring) :
  decrypt encryptedMsg hashedPassword =
    (iv ← HexEncoder.parse (take 32 encryptedMsg);
     raw ← HexEncoder.parse hashedPassword;
     key ← importKey_AES raw;
     data ← HexEncoder.parse (drop 32 encryptedMsg);
     outBuffer ← subtle_decrypt key iv data;
     Ok (UTF8Encoder.stringify outBuffer)).
Proof.
  unfold decrypt. change (IV_BITS / HEX_BITS) with (Z.of_nat 32).
  now rewrite substring_take, substring_from_drop.
Qed.

Lemma decrypt_artifact (iv ct : list byte) (hashedPassword : jsstring) :
  length iv = 16%nat ->
  decrypt (HexEncoder.stringify iv ++ HexEncoder.stringify ct) hashedPassword =
    (raw ← HexEncoder.parse hashedPassword;
     key ← importKey_AES raw;
     outBuffer ← subtle_decrypt key iv ct;
     Ok (UTF8Encoder.stringify outBuffer)).
Proof.
  intros Hiv. rewrite decrypt_unfold.
  assert (length (HexEncoder.stringify iv) = 32%nat) as Hlen
    by (rewrite length_stringify, Hiv; reflexivity).
  rewrite take_app_length', drop_app_length' by (symmetry; exact Hlen).
  rewrite !parse_stringify. cbn.
  destruct (HexEncoder.parse hashedPassword) as [raw|e]; [|reflexivity]. cbn.
  destruct (importKey_AES raw) as [key|e]; reflexivity.
Qed.

Lemma hashPassword_key (Hkdf : deriveBits_256 crypto) (W S : jsstring) :
  exists raw, HexEncoder.parse (hashPassword W S) = Ok raw /\ length raw = 32%nat.
Proof.
  unfold hashPassword, pbkdf2. eexists. split; [apply parse_stringify|apply Hkdf].
Qed.

(** Encryption under a 256-bit key succeeds, and decryption gives what
    [TextDecoder] reads in the bytes [TextEncoder] wrote. *)
Lemma decrypt_encrypt (Haes : aes_cbc_correct crypto)
    (iv raw : list byte) (msg K : jsstring) :
  length iv = 16%nat ->
  HexEncoder.parse K = Ok raw -> length raw = 32%nat ->
  exists ct,
    subtle_encrypt raw iv (UTF8Encoder.parse msg) = Ok ct /\
    encrypt iv msg K = Ok (HexEncoder.stringify iv ++ HexEncoder.stringify ct) /\
    decrypt (HexEncoder.stringify iv ++ HexEncoder.stringify ct) K =
      Ok (UTF8Encoder.stringify (UTF8Encoder.parse msg)).
Proof.
  intros Hiv HK Hraw.
  destruct (Haes raw iv (UTF8Encoder.parse msg) Hraw Hiv) as (ct & Henc & Hdec).
  exists ct. split; [assumption|]. split.
  - unfold encrypt. rewrite HK. cbn. rewrite importKey_AES_256 by assumption.
    cbn. rewrite Henc. reflexivity.
  - rewrite decrypt_artifact by assumption. rewrite HK. cbn.
    rewrite importKey_AES_256 by assumption. cbn. rewrite Hdec. reflexivity.
Qed.

End EngineFacts.

(** * The claims *)

(** ** C1: decryption after encryption *)

(** C1, as amended.  For every plaintext P that is well formed (no
    unpaired surrogate) and does not start with U+FEFF, every password W,
    salt S and 16-byte IV: [encrypt] under the key derived from W and S
    returns an artifact, and [decrypt] of that artifact under the same
    key returns P exactly. *)
Theorem decrypt_encrypt_round_trip {crypto : WebCrypto}
    (Hkdf : deriveBits_256 crypto) (Haes : aes_cbc_correct crypto)
    (P W S : jsstring) (iv : list byte) :
  length iv = 16%nat ->
  well_formed P = true -> starts_with_bom P = false ->
  exists artifact,
    encrypt iv P (hashPassword W S) = Ok artifact /\
    decrypt artifact (hashPassword W S) = Ok P.
Proof.
  intros Hiv Hwf Hbom.
  destruct (hashPassword_key Hkdf W S) as (raw & HK & Hraw).
  destruct (decrypt_encrypt Haes iv raw P _ Hiv HK Hraw) as (ct & _ & Henc & Hdec).
  eexists. split; [exact Henc|].
  now rewrite Hdec, UTF8Encoder_stringify_parse.
Qed.

Lemma decrypt_encrypt_round_trip_witness :
  well_formed Toy.sample_json = true /\
  starts_with_bom Toy.sample_json = false /\
  exists artifact,
    encrypt (crypto := Toy.crypto) Toy.iv0 Toy.sample_json
      (hashPassword (crypto := Toy.crypto) Toy.password Toy.salt) = Ok artifact /\
    decrypt (crypto := Toy.crypto) artifact
      (hashPassword (crypto := Toy.crypto) Toy.password Toy.salt)
      = Ok Toy.sample_json.
Proof.
  split; [reflexivity|]. split; [reflexivity|].
  apply (decrypt_encrypt_round_trip toy_deriveBits_256 toy_aes_cbc_correct);
    reflexivity.
Defined.

(** Whatever the cipher, a plaintext that starts with U+FEFF comes back
    without it: the decoder of [UTF8Encoder.stringify] drops it. *)
Lemma decrypt_encrypt_drops_bom {crypto : WebCrypto}
    (Hkdf : deriveBits_256 crypto) (Haes : aes_cbc_correct crypto)
    (P W S : jsstring) (iv : list byte) :
  length iv = 16%nat ->
  well_formed P = true -> starts_with_bom P = false ->
  exists artifact,
    encrypt iv (0xFEFF :: P) (hashPassword W S) = Ok artifact /\
    decrypt artifact (hashPassword W S) = Ok P.
Proof.
  intros Hiv Hwf Hbom.
  destruct (hashPassword_key Hkdf W S) as (raw & HK & Hraw).
  destruct (decrypt_encrypt Haes iv raw (0xFEFF :: P) _ Hiv HK Hraw)
    as (ct & _ & Henc & Hdec).
  eexists. split; [exact Henc|]. rewrite Hdec. f_equal.
  unfold UTF8Encoder.stringify, UTF8Encoder.parse.
  destruct (code_points_well_formed (length P) P) as [Hs Hu]; [lia|assumption|].
  change (code_points (0xFEFF :: P)) with (0xFEFF :: code_points P).
  rewrite utf8_decode_encode by (constructor; [right; lia|assumption]).
  exact Hu.
Qed.

(** C1, as stated, fails: the plaintext U+FEFF followed by the sample
    document is encrypted, and decrypts to the sample document alone. *)
Lemma round_trip_loses_leading_bom :
  let P := 0xFEFF :: Toy.sample_json in
  let K := hashPassword (crypto := Toy.crypto) Toy.password Toy.salt in
  exists artifact,
    encrypt (crypto := Toy.crypto) Toy.iv0 P K = Ok artifact /\
    decrypt (crypto := Toy.crypto) artifact K = Ok Toy.sample_json /\
    UTF8Encoder.stringify (UTF8Encoder.parse P) = Toy.sample_json /\
    Toy.sample_json <> P.
Proof.
  cbv zeta.
  destruct (decrypt_encrypt_drops_bom toy_deriveBits_256 toy_aes_cbc_correct
              Toy.sample_json Toy.password Toy.salt Toy.iv0)
    as (artifact & Henc & Hdec); try reflexivity.
  exists artifact. repeat split; try assumption; discriminate.
Qed.

(** ** C2: the key derivation *)

(** C2.  [hashPassword] is three chained PBKDF2 passes over the same
    salt: 1,000 iterations of SHA-1 on the password, then 14,000 and
    585,000 iterations of SHA-256, each on the hex text of the pass before
    it.  Each pass asks for 256 bits and returns them as 64 lower-case hex
    digits; the next pass reads these 64 digits as 64 bytes of text, not
    as the 32 bytes they encode.  The third pass is the result. *)
Theorem hashPassword_three_passes {crypto : WebCrypto}
    (Hkdf : deriveBits_256 crypto) (password salt : jsstring) :
  let saltBytes := UTF8Encoder.parse salt in
  let bits1 := subtle_deriveBits SHA_1 1000 saltBytes (UTF8Encoder.parse password) 256 in
  let pass1 := HexEncoder.stringify bits1 in
  let bits2 := subtle_deriveBits SHA_256 14000 saltBytes (map byte_of_Z pass1) 256 in
  let pass2 := HexEncoder.stringify bits2 in
  let bits3 := subtle_deriveBits SHA_256 585000 saltBytes (map byte_of_Z pass2) 256 in
  let pass3 := HexEncoder.stringify bits3 in
  hashPassword password salt = pass3 /\
  (forall pass, In pass [pass1; pass2; pass3] ->
     length pass = 64%nat /\ forallb is_lower_hex pass = true) /\
  UTF8Encoder.parse pass1 = map byte_of_Z pass1 /\
  UTF8Encoder.parse pass2 = map byte_of_Z pass2 /\
  length (map byte_of_Z pass1) = 64%nat /\
  length (map byte_of_Z pass2) = 64%nat /\
  HexEncoder.parse pass1 = Ok bits1 /\ length bits1 = 32%nat /\
  HexEncoder.parse pass2 = Ok bits2 /\ length bits2 = 32%nat.
Proof.
  cbv zeta.
  assert (Hascii : forall bs,
    UTF8Encoder.parse (HexEncoder.stringify bs) = map byte_of_Z (HexEncoder.stringify bs)).
  { intros bs. apply UTF8Encoder_parse_ascii, lower_hex_ascii, stringify_lower_hex. }
  assert (Hlen : forall h n s p,
    length (HexEncoder.stringify (subtle_deriveBits h n s p 256)) = 64%nat).
  { intros. now rewrite length_stringify, Hkdf. }
  split.
  { unfold hashPassword, pbkdf2. now rewrite !Hascii. }
  split.
  { intros pass [<-|[<-|[<-|[]]]]; (split; [apply Hlen|apply stringify_lower_hex]). }
  rewrite !Hascii, !length_map, !Hlen, !parse_stringify, !Hkdf.
  repeat split; reflexivity.
Qed.

Lemma hashPassword_three_passes_witness :
  length (hashPassword (crypto := Toy.crypto) Toy.password Toy.salt) = 64%nat /\
  forallb is_lower_hex (hashPassword (crypto := Toy.crypto) Toy.password Toy.salt)
    = true.
Proof.
  destruct (hashPassword_three_passes (crypto := Toy.crypto)
              toy_deriveBits_256 Toy.password Toy.salt) as (Heq & Hall & _).
  rewrite Heq. apply Hall. right. right. left. reflexivity.
Defined.

(** ** C4: a fresh IV gives a fresh artifact *)

(** C4, as amended.  For every plaintext P that is well formed and does
    not start with U+FEFF, every 256-bit key K and any two distinct
    16-byte IVs, the two artifacts [encrypt] returns differ, already in
    their first 32 characters, and each decrypts back to P under K. *)
Theorem distinct_ivs_distinct_artifacts {crypto : WebCrypto}
    (Haes : aes_cbc_correct crypto)
    (P K : jsstring) (raw iv1 iv2 : list byte) :
  HexEncoder.parse K = Ok raw -> length raw = 32%nat ->
  length iv1 = 16%nat -> length iv2 = 16%nat -> iv1 <> iv2 ->
  well_formed P = true -> starts_with_bom P = false ->
  exists a1 a2,
    encrypt iv1 P K = Ok a1 /\ encrypt iv2 P K = Ok a2 /\
    substring a1 0 32 <> substring a2 0 32 /\ a1 <> a2 /\
    decrypt a1 K = Ok P /\ decrypt a2 K = Ok P.
Proof.
  intros HK Hraw Hiv1 Hiv2 Hne Hwf Hbom.
  destruct (decrypt_encrypt Haes iv1 raw P K Hiv1 HK Hraw) as (c1 & _ & He1 & Hd1).
  destruct (decrypt_encrypt Haes iv2 raw P K Hiv2 HK Hraw) as (c2 & _ & He2 & Hd2).
  rewrite UTF8Encoder_stringify_parse in Hd1, Hd2 by assumption.
  assert (Hpre : forall iv ct, length iv = 16%nat ->
    substring (HexEncoder.stringify iv ++ HexEncoder.stringify ct) 0 32
      = HexEncoder.stringify iv).
  { intros iv ct Hiv. change 32 with (Z.of_nat 32). rewrite substring_take.
    apply take_app_length'. rewrite length_stringify, Hiv. reflexivity. }
  assert (Hdiff : substring (HexEncoder.stringify iv1 ++ HexEncoder.stringify c1) 0 32
                  <> substring (HexEncoder.stringify iv2 ++ HexEncoder.stringify c2) 0 32).
  { rewrite !Hpre by assumption. intros Heq. now apply Hne, stringify_inj. }
  eexists _, _. repeat split; try eassumption.
  intros Heq. apply Hdiff. now rewrite Heq.
Qed.

Lemma distinct_ivs_distinct_artifacts_witness :
  exists a1 a2,
    encrypt (crypto := Toy.crypto) Toy.iv0 Toy.sample_json
      (HexEncoder.stringify (repeat x07 32)) = Ok a1 /\
    encrypt (crypto := Toy.crypto) Toy.iv1 Toy.sample_json
      (HexEncoder.stringify (repeat x07 32)) = Ok a2 /\
    substring a1 0 32 <> substring a2 0 32 /\ a1 <> a2 /\
    decrypt (crypto := Toy.crypto) a1 (HexEncoder.stringify (repeat x07 32))
      = Ok Toy.sample_json /\
    decrypt (crypto := Toy.crypto) a2 (HexEncoder.stringify (repeat x07 32))
      = Ok Toy.sample_json.
Proof.
  apply (distinct_ivs_distinct_artifacts (crypto := Toy.crypto)
           toy_aes_cbc_correct Toy.sample_json
           (HexEncoder.stringify (repeat x07 32)) (repeat x07 32) Toy.iv0 Toy.iv1
           (parse_stringify (repeat x07 32)) eq_refl eq_refl eq_refl);
    [discriminate|reflexivity|reflexivity].
Defined.

(** C4, as stated, fails: under two distinct IVs the plaintext U+FEFF
    followed by an empty array gives two distinct artifacts, and both
    decrypt to the empty array alone. *)
Lemma fresh_artifacts_lose_leading_bom :
  let P := 0xFEFF :: js "[]" in
  let K := HexEncoder.stringify (repeat x07 32) in
  exists a1 a2,
    encrypt (crypto := Toy.crypto) Toy.iv0 P K = Ok a1 /\
    encrypt (crypto := Toy.crypto) Toy.iv1 P K = Ok a2 /\
    substring a1 0 32 <> substring a2 0 32 /\
    decrypt (crypto := Toy.crypto) a1 K = Ok (js "[]") /\
    decrypt (crypto := Toy.crypto) a2 K = Ok (js "[]") /\
    js "[]" <> P.
Proof.
  cbv zeta. eexists _, _.
  split; [vm_compute; reflexivity|].
  split; [vm_compute; reflexivity|].
  split; [vm_compute; discriminate|].
  split; [vm_compute; reflexivity|].
  split; [vm_compute; reflexivity|discriminate].
Qed.

(** ** C5: what the hex decoder rejects *)

Lemma parse_odd_length (s : jsstring) :
  Z.of_nat (length s) mod 2 <> 0 -> HexEncoder.parse s = Throw InvalidHexString.
Proof.
  intros H. unfold HexEncoder.parse.
  now replace (_ =? 0) with false by (symmetry; now apply Z.eqb_neq).
Qed.

Lemma hex_digit_value_range (a v : Z) :
  hex_digit_value a = Some v ->
  (0x30 <= a <= 0x39 \/ 0x61 <= a <= 0x66 \/ 0x41 <= a <= 0x46) /\ 0 <= v < 16.
Proof.
  unfold hex_digit_value.
  destruct ((0x30 <=? a) && (a <=? 0x39)) eqn:E1;
    [|destruct ((0x61 <=? a) && (a <=? 0x66)) eqn:E2;
      [|destruct ((0x41 <=? a) && (a <=? 0x46)) eqn:E3]];
    intros [= <-];
    match goal with
    | E : _ && _ = true |- _ =>
        apply andb_prop in E as [Hl Hu]; apply Z.leb_le in Hl, Hu; lia
    end.
Qed.

(** A pair is accepted as soon as its first character is a hex digit:
    [parseInt] stops at the second without complaint. *)
Lemma parse_pair_lenient (a b : Z) (v : Z) :
  hex_digit_value a = Some v -> hex_digit_value b = None ->
  negb (a =? 0x30) || negb ((b =? 0x78) || (b =? 0x58)) = true ->
  HexEncoder.parse [a; b] = Ok [ToUint8 v].
Proof.
  intros Ha Hb Hx. unfold HexEncoder.parse.
  cbn [length]. change (negb (Z.of_nat 2 mod 2 =? 0)) with false.
  change (Z.to_nat (Z.of_nat 2 / 2)) with 1%nat.
  cbn [HexEncoder.parse_loop].
  change (substring [a; b] 0 (0 + 2)) with [a; b].
  assert (is_StrWhiteSpaceChar a = false /\ (a =? 0x2B) = false /\ (a =? 0x2D) = false)
    as (Hws & Hplus & Hminus).
  { apply hex_digit_value_range in Ha as [Ha _]. unfold is_StrWhiteSpaceChar.
    (split; [|split]); decide_cmp; reflexivity. }
  unfold parseInt16. cbn [trim_start]. rewrite Hws. cbn [strip_sign].
  rewrite Hplus, Hminus. cbn [orb strip_0x].
  replace ((a =? 0x30) && ((b =? 0x78) || (b =? 0x58))) with false.
  2:{ destruct (a =? 0x30), ((b =? 0x78) || (b =? 0x58)); cbn in *; congruence. }
  cbn [digits_prefix]. rewrite Ha, Hb. cbn.
  replace (1 * (0 * 16 + v)) with v by lia. reflexivity.
Qed.

Lemma parseInt16_hex_pair (a b v : Z) :
  hex_pair_value a b = Some v -> parseInt16 [a; b] = Some v.
Proof.
  unfold hex_pair_value. intros H.
  destruct (hex_digit_value a) as [hi|] eqn:Ha; [|discriminate].
  destruct (hex_digit_value b) as [lo|] eqn:Hb; [|discriminate].
  injection H as <-.
  pose proof (hex_digit_value_range a hi Ha) as [Hra _].
  pose proof (hex_digit_value_range b lo Hb) as [Hrb _].
  assert (is_StrWhiteSpaceChar a = false /\ (a =? 0x2B) = false /\ (a =? 0x2D) = false)
    as (Hws & Hplus & Hminus).
  { unfold is_StrWhiteSpaceChar. (split; [|split]); decide_cmp; reflexivity. }
  assert ((b =? 0x78) = false /\ (b =? 0x58) = false) as (Hx & HX).
  { split; decide_cmp; reflexivity. }
  unfold parseInt16. cbn [trim_start]. rewrite Hws. cbn [strip_sign].
  rewrite Hplus, Hminus. cbn [orb strip_0x]. rewrite Hx, HX, andb_false_r.
  cbn [digits_prefix]. rewrite Ha, Hb. cbn [fold_left]. f_equal. lia.
Qed.

Lemma parse_loop_fromHex_spec (s : jsstring) (bytes : list byte) (pre : jsstring) :
  fromHex_spec s = Some bytes ->
  HexEncoder.parse_loop (pre ++ s) (Z.of_nat (length pre)) (length bytes) = Ok bytes
  /\ length s = (2 * length bytes)%nat.
Proof.
  revert s pre. induction bytes as [|x bytes IH]; intros s pre Hs.
  - destruct s as [|a [|b r]]; cbn in Hs; try discriminate; [now split|].
    destruct (hex_pair_value a b); [|discriminate]. cbn in Hs.
    destruct (fromHex_spec r); discriminate.
  - destruct s as [|a [|b r]]; cbn in Hs; try discriminate.
    destruct (hex_pair_value a b) as [v|] eqn:Hv; [|discriminate]. cbn in Hs.
    destruct (fromHex_spec r) as [rest|] eqn:Hr; [|discriminate].
    injection Hs as <- <-.
    destruct (IH r (pre ++ [a; b]) Hr) as [Hloop Hlen].
    split; [|cbn [length]; lia].
    cbn [HexEncoder.parse_loop length].
    change (a :: b :: r) with ([a; b] ++ r).
    replace (Z.of_nat (length pre) + 2)
      with (Z.of_nat (length pre) + Z.of_nat (length [a; b])) by reflexivity.
    rewrite substring_app_mid, (parseInt16_hex_pair a b v Hv).
    rewrite app_assoc.
    replace (Z.of_nat (length pre) + Z.of_nat (length [a; b]))
      with (Z.of_nat (length (pre ++ [a; b]))) by (rewrite length_app; lia).
    rewrite Hloop. cbn. unfold ToUint8, byte_of_Z.
    now rewrite Z.mod_mod by lia.
Qed.

(** Where the decoder of the specification succeeds, [HexEncoder.parse]
    returns the same bytes. *)
Lemma parse_fromHex_spec (s : jsstring) (bytes : list byte) :
  fromHex_spec s = Some bytes -> HexEncoder.parse s = Ok bytes.
Proof.
  intros Hs. destruct (parse_loop_fromHex_spec s bytes [] Hs) as [Hloop Hlen].
  unfold HexEncoder.parse. rewrite Hlen.
  replace (Z.of_nat (2 * length bytes) mod 2 =? 0) with true
    by (symmetry; apply Z.eqb_eq; rewrite Nat2Z.inj_mul, Z.mul_comm; apply Z_mod_mult).
  cbn [negb].
  replace (Z.to_nat (Z.of_nat (2 * length bytes) / 2)) with (length bytes).
  - exact Hloop.
  - rewrite Nat2Z.inj_mul, Z.mul_comm, Z_div_mult by lia. now rewrite Nat2Z.id.
Qed.

(** C5: the code at inputs the claim says it rejects.  The pair [1g],
    whose second character is no hex digit, decodes to the byte 01; so
    does the pair of a space and [1]; a sign is accepted too. *)
Theorem parse_accepts_non_hex_pairs :
  (fromHex_spec (js "1g") = None /\ HexEncoder.parse (js "1g") = Ok [x01]) /\
  (fromHex_spec (js " 1") = None /\ HexEncoder.parse (js " 1") = Ok [x01]) /\
  (fromHex_spec (js "-1") = None /\ HexEncoder.parse (js "-1") = Ok [xff]) /\
  HexEncoder.parse (js "ff") = Ok [xff] /\
  HexEncoder.parse (js "zz") = Throw InvalidHexString /\
  HexEncoder.parse (js "fff") = Throw InvalidHexString.
Proof. repeat split; reflexivity. Qed.

(** ** The workflows *)

Lemma only_after_sound (before after : event -> bool) (tr : list event) :
  only_after before after false tr = true -> preceded_by before after tr.
Proof.
  assert (H : forall tr seen,
    only_after before after seen tr = true ->
    forall pre e post, tr = pre ++ e :: post -> after e = true ->
      seen = true \/ exists e', In e' pre /\ before e' = true).
  { clear tr. induction tr as [|x tr IH]; intros seen Hok pre e post Heq Hafter.
    - destruct pre; discriminate.
    - cbn [only_after] in Hok. apply andb_prop in Hok as [Hx Hok].
      destruct pre as [|p pre]; cbn in Heq; injection Heq as -> ->.
      + rewrite Hafter in Hx. cbn in Hx. now left.
      + destruct (IH _ Hok pre e post eq_refl Hafter) as [Hseen|(e' & Hin & Hb)].
        * apply orb_prop in Hseen as [->|Hb]; [now left|].
          right. exists p. split; [now left|assumption].
        * right. exists e'. split; [now right|assumption]. }
  intros Hok pre e post Heq Hafter.
  destruct (H tr false Hok pre e post Heq Hafter) as [?|?]; [discriminate|assumption].
Qed.

Lemma none_after_sound (first later : event -> bool) (tr : list event) :
  none_after first later tr = true -> never_after first later tr.
Proof.
  induction tr as [|x tr IH]; intros Hok pre e post Heq Hlater.
  - destruct pre; discriminate.
  - cbn [none_after] in Hok. apply andb_prop in Hok as [Hx Hok].
    destruct pre as [|p pre]; cbn in Heq; injection Heq as -> ->.
    + rewrite Hlater in Hx. cbn in Hx. now apply negb_true_iff in Hx.
    + now apply (IH Hok pre e post).
Qed.

(** Unfolds the calls of a workflow on the current state. *)
Ltac run_calls :=
  cbv beta iota zeta delta
      [mbind mret proc_bind proc_ret exit lift try_catch getenv_password
       existsSync readFileSync writeFileSync copyFileSync unlinkSync
       getRandomValues rmSync execSync_staticrypt do_hashPassword generateRandomSalt
       loadOrCreateConfig log set_files advance boot run
       files trace drawn entropy STATICRYPT_PASSWORD negb app].

(** Follows a workflow to its ends, one case for each outcome of a test
    or of a call. *)
Ltac run_cases :=
  repeat (run_calls;
          match goal with
          | |- context [match ?x with _ => _ end] =>
              lazymatch x with
              | context [match _ with _ => _ end] => fail
              | _ => destruct x eqn:?
              end
          end);
  run_calls.

(** Follows a workflow along the branch that [tac] selects by rewriting
    the outcomes of its tests and calls. *)
Ltac run_along tac := repeat (run_calls; progress tac); run_calls.

(** Sets the property stated of a run aside while the run is followed,
    and brings it back at the end. *)
Ltac hold_property :=
  match goal with
  | |- context [run ?m ?w] =>
      pattern (run m w);
      match goal with
      | |- ?P _ => let Q := fresh "Q" in set (Q := P)
      end
  end.

Ltac held_property :=
  match goal with
  | Q := _ |- _ => subst Q; cbv beta; cbn [fst snd trace files]
  end.

(** A hypothesis on what a trace holds, once the trace is known: it is
    false, or it is dropped. *)
Ltac known_trace :=
  match goal with
  | |- existsb ?f ?tr = ?b -> _ =>
      let v := eval lazy in (existsb f tr) in
      lazymatch v with
      | b => intros _
      | _ => let H := fresh in
             intros H; exfalso;
             assert (existsb f tr = v) by reflexivity; congruence
      end
  | |- ?a = ?b :> Z -> _ =>
      first [ intros; discriminate | intros _ ]
  end.

Section WorkflowFacts.
Context {crypto : WebCrypto} {host : Host}.

(** ** C9: decryption with no artifact *)

(** C9, as amended.  When a password is given and there is no encrypted
    artifact, the decryption script ends with exit code 0 after the one
    test for the artifact: it has not looked for the salt, derived no
    key, and the files are as they were. *)
Theorem decrypt_without_artifact_is_a_no_op
    (pw : option jsstring) (fs : gmap string jsstring) (ent : nat -> byte) :
  falsy pw = false -> fs !! DATA_ENC_PATH = None ->
  run main_decrypt (boot pw fs ent) =
    ({| STATICRYPT_PASSWORD := pw; files := fs; entropy := ent; drawn := 0;
        trace := [EvExists DATA_ENC_PATH] |}, 0).
Proof.
  intros Hpw Hnone. unfold main_decrypt.
  run_along ltac:(rewrite ?Hpw, ?Hnone). reflexivity.
Qed.

(** ** C8: decryption writes parsed JSON or nothing *)

(** C8.  The decryption script writes one file at most, the plaintext
    artifact, and only what [decrypt] returned and [JSON.parse]
    accepted.  A run that ends with a non-zero code has changed no
    file.  When [decrypt] throws, or [JSON.parse] throws on what it
    returned, the run ends with code 1. *)
Theorem decrypt_writes_parsed_json_or_nothing
    (pw : option jsstring) (fs : gmap string jsstring) (ent : nat -> byte) :
  let r := run main_decrypt (boot pw fs ent) in
  (forall path data, In (EvWriteFile path data) (trace r.1) ->
     path = DATA_PATH /\ r.2 = 0 /\
     exists enc text config salt j,
       fs !! DATA_ENC_PATH = Some enc /\ fs !! CONFIG_PATH = Some text /\
       JSON_parse text = Ok config /\ get_salt config = Ok salt /\
       decrypt enc (hashPassword (string_of pw) salt) = Ok data /\
       JSON_parse data = Ok j /\
       files r.1 = <[DATA_PATH := data]> fs) /\
  (r.2 <> 0 ->
     files r.1 = fs /\ existsb is_mutation (trace r.1) = false) /\
  (forall enc text config salt,
     falsy pw = false ->
     fs !! DATA_ENC_PATH = Some enc -> fs !! CONFIG_PATH = Some text ->
     JSON_parse text = Ok config -> get_salt config = Ok salt ->
     (exists e, decrypt enc (hashPassword (string_of pw) salt) = Throw e) \/
     (exists data e,
        decrypt enc (hashPassword (string_of pw) salt) = Ok data /\
        JSON_parse data = Throw e) ->
     r.2 = 1 /\ files r.1 = fs /\ existsb is_mutation (trace r.1) = false).
Proof.
  cbv zeta. split; [|split].
  - intros path data. hold_property. unfold main_decrypt.
    run_cases; simplify_eq; held_property; cbn [In];
      intros Hin; repeat destruct Hin as [Hin|Hin];
      try discriminate; try contradiction.
    injection Hin as <- <-.
    split; [reflexivity|]. split; [reflexivity|]. eauto 12.
  - hold_property. unfold main_decrypt.
    run_cases; simplify_eq; held_property;
      intros Hcode; try (now split); contradiction.
  - intros enc text config salt Hpw Henc Htext Hconfig Hsalt Hfail.
    unfold main_decrypt.
    destruct Hfail as [[e He]|(data & e & Hd & He)].
    + run_along ltac:(rewrite ?Hpw, ?Henc, ?Htext, ?Hconfig, ?Hsalt, ?He).
      cbn [fst snd trace files]. now repeat split.
    + run_along ltac:(rewrite ?Hpw, ?Henc, ?Htext, ?Hconfig, ?Hsalt, ?Hd, ?He).
      cbn [fst snd trace files]. now repeat split.
Qed.

(** ** C7: the plaintext is deleted after the ciphertext is written *)

Lemma main_encrypt_data_deletes_after_write
    (pw : option jsstring) (fs : gmap string jsstring) (ent : nat -> byte) :
  deletes_after_write fs (run main_encrypt_data (boot pw fs ent)).
Proof.
  unfold main_encrypt_data. run_cases; simplify_eq;
    unfold deletes_after_write; cbn [fst snd trace files];
    (split; [apply only_after_sound; reflexivity|]);
    (split; [apply only_after_sound; reflexivity|]);
    (split; [known_trace; try (split; reflexivity)
            |known_trace; try apply lookup_delete_eq]).
Qed.

Lemma main_encrypt_deletes_after_write
    (pw : option jsstring) (fs : gmap string jsstring) (ent : nat -> byte) :
  deletes_after_write fs (run main_encrypt (boot pw fs ent)).
Proof.
  unfold main_encrypt. run_cases; simplify_eq;
    unfold deletes_after_write; cbn [fst snd trace files];
    (split; [apply only_after_sound; reflexivity|]);
    (split; [apply only_after_sound; reflexivity|]);
    (split; [known_trace;
             try (split; [reflexivity
                         |rewrite ?lookup_insert_ne by discriminate; reflexivity])
            |known_trace; first [apply lookup_delete_eq | assumption | idtac]]).

Qed.

(** C7.  In both encryption scripts the plaintext artifact is unlinked,
    and any call that can remove a file is made, only after the encrypted
    artifact was written; a run that ends before that write has not
    unlinked the plaintext and leaves it as it was; a run that ends well
    leaves no plaintext. *)
Theorem plaintext_deleted_only_after_ciphertext_written
    (pw : option jsstring) (fs : gmap string jsstring) (ent : nat -> byte) :
  deletes_after_write fs (run main_encrypt (boot pw fs ent)) /\
  deletes_after_write fs (run main_encrypt_data (boot pw fs ent)).
Proof.
  split;
    [apply main_encrypt_deletes_after_write
    |apply main_encrypt_data_deletes_after_write].
Qed.

(** ** C6: where the full publish deletes the plaintext *)

(** C6, as amended.  In every run of the full publish, the host document
    is patched and the generator is called after the encrypted artifact
    was written and before the plaintext artifact is unlinked: every call
    on [index.html] and the call of the generator follow the write of
    the artifact, none follows the unlink of the plaintext, and the
    plaintext is unlinked only after the host document was written and
    the generator has run.  The unlink is the last call of a run that
    ends with code 0, and such a run has written the artifact, patched
    the document and run the generator.  When the generator fails, the
    run ends there with code 1 and the plaintext has not been
    unlinked. *)
Theorem plaintext_deleted_after_generator
    (pw : option jsstring) (fs : gmap string jsstring) (ent : nat -> byte) :
  unlinks_plaintext_last (run main_encrypt (boot pw fs ent)) /\
  patches_between_write_and_unlink (run main_encrypt (boot pw fs ent)).
Proof.
  unfold main_encrypt. run_cases; simplify_eq; split.
  all: unfold unlinks_plaintext_last, patches_between_write_and_unlink;
    cbn [fst snd trace files].
  all: repeat match goal with
       | |- preceded_by _ _ _ /\ _ =>
           split; [apply only_after_sound; reflexivity|]
       | |- never_after _ _ _ /\ _ =>
           split; [apply none_after_sound; reflexivity|]
       end.
  all: try (split; known_trace; repeat split; reflexivity).
  all: known_trace; repeat split; reflexivity.
Qed.

(** ** C10: the data-only script and the salt *)

(** C10.  When the salt configuration is absent, the data-only script
    ends with code 1 having done no more than test for the plaintext and
    for the configuration: no key derived, no file written or deleted,
    the files as they were.  [loadOrCreateConfig] of the full publish,
    in the same situation, draws 16 bytes, writes the configuration
    holding their hex digits as the salt, and returns it. *)
Theorem data_only_never_creates_salt
    (pw : option jsstring) (fs : gmap string jsstring) (ent : nat -> byte) :
  fs !! CONFIG_PATH = None ->
  (let r := run main_encrypt_data (boot pw fs ent) in
   r.2 = 1 /\ files r.1 = fs /\
   (trace r.1 = [] \/ trace r.1 = [EvExists DATA_PATH] \/
    trace r.1 = [EvExists DATA_PATH; EvExists CONFIG_PATH])) /\
  (let salt := HexEncoder.stringify (map ent (seq 0 16)) in
   let config := salt_object salt in
   loadOrCreateConfig (boot pw fs ent) =
     ({| STATICRYPT_PASSWORD := pw;
         files := <[CONFIG_PATH := JSON_stringify config]> fs;
         entropy := ent; drawn := 16;
         trace := [EvExists CONFIG_PATH; EvRandom 16;
                   EvWriteFile CONFIG_PATH (JSON_stringify config)] |},
      Done config)).
Proof.
  intros Hnone. cbv zeta. split.
  - hold_property. unfold main_encrypt_data.
    run_cases; simplify_eq; held_property; auto.
  - run_along ltac:(rewrite ?Hnone). reflexivity.
Qed.

End WorkflowFacts.

(** ** The workflows on the stand-in platform *)

Lemma decrypt_without_artifact_is_a_no_op_witness :
  run (main_decrypt (crypto := Toy.crypto) (host := Toy.host true))
      (boot (Some Toy.password) ∅ Toy.ent0) =
    ({| STATICRYPT_PASSWORD := Some Toy.password; files := ∅;
        entropy := Toy.ent0; drawn := 0;
        trace := [EvExists DATA_ENC_PATH] |}, 0).
Proof.
  apply (decrypt_without_artifact_is_a_no_op (crypto := Toy.crypto)
           (host := Toy.host true)); reflexivity.
Defined.

(** C9, as stated, fails: with no encrypted artifact and no password, the
    decryption script ends with code 1, before it tests for the
    artifact. *)
Lemma decrypt_without_password_exits_1 :
  (∅ : gmap string jsstring) !! DATA_ENC_PATH = None /\
  run (main_decrypt (crypto := Toy.crypto) (host := Toy.host true))
      (boot None ∅ Toy.ent0) = (boot None ∅ Toy.ent0, 1).
Proof. split; reflexivity. Qed.

Lemma data_only_never_creates_salt_witness :
  Toy.fresh_project !! CONFIG_PATH = None /\
  let r := run (main_encrypt_data (crypto := Toy.crypto) (host := Toy.host true))
             (boot (Some Toy.password) Toy.fresh_project Toy.ent0) in
  r.2 = 1 /\ files r.1 = Toy.fresh_project /\
  (trace r.1 = [] \/ trace r.1 = [EvExists DATA_PATH] \/
   trace r.1 = [EvExists DATA_PATH; EvExists CONFIG_PATH]).
Proof.
  split; [reflexivity|].
  exact (proj1 (data_only_never_creates_salt (crypto := Toy.crypto)
                  (host := Toy.host true)
                  (Some Toy.password) Toy.fresh_project Toy.ent0 eq_refl)).
Defined.

(** C6, as stated, fails: on a project ready for its first encryption,
    with a generator that fails, the full publish writes the salt and the
    encrypted artifact, patches the host document, calls the generator
    and ends with code 1; it has not unlinked the plaintext, which is
    still there. *)
Lemma generator_failure_leaves_plaintext :
  let r := run (main_encrypt (crypto := Toy.crypto) (host := Toy.host false))
             (boot (Some Toy.password) Toy.fresh_project Toy.ent0) in
  r.2 = 1 /\
  map without_data (trace r.1) =
    [EvExists DATA_PATH; EvExists CONFIG_PATH; EvRandom 16;
     EvWriteFile CONFIG_PATH []; EvHashPassword; EvReadFile DATA_PATH;
     EvRandom 16; EvWriteFile DATA_ENC_PATH []; EvExists INDEX_BAK_PATH;
     EvCopyFile INDEX_PATH INDEX_BAK_PATH; EvReadFile INDEX_PATH;
     EvWriteFile INDEX_PATH []; EvExec false] /\
  existsb (is_unlink DATA_PATH) (trace r.1) = false /\
  files r.1 !! DATA_PATH = Some Toy.sample_json.
Proof. cbv zeta. repeat split; vm_compute; reflexivity. Qed.

(** * Further properties *)

(** ** HexEncoder *)

(** X1.  [HexEncoder.parse] reads back what [HexEncoder.stringify]
    wrote, so two byte arrays with the same hex text are the same
    array. *)
Theorem HexEncoder_parse_inverts_stringify (bytes : list byte) :
  HexEncoder.parse (HexEncoder.stringify bytes) = Ok bytes /\
  forall other, HexEncoder.stringify other = HexEncoder.stringify bytes ->
                other = bytes.
Proof.
  split; [apply parse_stringify|]. intros other. apply stringify_inj.
Qed.

(** X2.  [HexEncoder.stringify] writes two lower-case hex digits for
    each byte, in order: the text of a concatenation is the
    concatenation of the texts. *)
Theorem HexEncoder_stringify_shape (a b : list byte) :
  length (HexEncoder.stringify a) = (2 * length a)%nat /\
  forallb is_lower_hex (HexEncoder.stringify a) = true /\
  HexEncoder.stringify (a ++ b) = HexEncoder.stringify a ++ HexEncoder.stringify b.
Proof.
  split; [apply length_stringify|].
  split; [apply stringify_lower_hex|apply stringify_app].
Qed.

Lemma parse_loop_length (s : jsstring) (n : nat) (i : Z) (bytes : list byte) :
  HexEncoder.parse_loop s i n = Ok bytes -> length bytes = n.
Proof.
  revert i bytes. induction n as [|n IH]; intros i bytes H; cbn in H.
  - now injection H as <-.
  - destruct (parseInt16 _); [|discriminate].
    destruct (HexEncoder.parse_loop s (i + 2) n) as [rest|] eqn:Hrest;
      [|discriminate].
    cbn in H. injection H as <-. cbn. f_equal. eauto.
Qed.

(** X3.  When [HexEncoder.parse] returns, the string had an even length
    and the array has half as many bytes. *)
Theorem HexEncoder_parse_length (s : jsstring) (bytes : list byte) :
  HexEncoder.parse s = Ok bytes -> length s = (2 * length bytes)%nat.
Proof.
  unfold HexEncoder.parse. intros H.
  destruct (Z.eqb_spec (Z.of_nat (length s) mod 2) 0) as [Heven|]; [|discriminate].
  cbn [negb] in H. apply parse_loop_length in H. zlia.
Qed.

Lemma HexEncoder_parse_length_witness :
  length (js "00ff1A") = (2 * length [x00; xff; x1a])%nat.
Proof. apply HexEncoder_parse_length. reflexivity. Defined.

Lemma is_lower_hex_cases (c : Z) :
  is_lower_hex c = true ->
  In c [0x30; 0x31; 0x32; 0x33; 0x34; 0x35; 0x36; 0x37; 0x38; 0x39;
        0x61; 0x62; 0x63; 0x64; 0x65; 0x66].
Proof.
  unfold is_lower_hex. intros H. cbn [In].
  apply orb_prop in H as [[H1 H2]%andb_prop | [H1 H2]%andb_prop];
    apply Z.leb_le in H1, H2; lia.
Qed.

Lemma lower_hex_pair (a b : Z) :
  is_lower_hex a = true -> is_lower_hex b = true ->
  exists v, hex_pair_value a b = Some v /\
            HexEncoder.byteString (byte_of_Z v) = [a; b].
Proof.
  intros Ha%is_lower_hex_cases Hb%is_lower_hex_cases. cbn [In] in Ha, Hb.
  repeat destruct Ha as [<-|Ha]; try contradiction;
    repeat destruct Hb as [<-|Hb]; try contradiction;
    eexists; split; reflexivity.
Qed.

Lemma lower_hex_fromHex_spec (n : nat) (s : jsstring) :
  (length s <= 2 * n)%nat -> Z.of_nat (length s) mod 2 = 0 ->
  forallb is_lower_hex s = true ->
  exists bytes, fromHex_spec s = Some bytes /\ HexEncoder.stringify bytes = s.
Proof.
  revert s. induction n as [|n IH]; intros s Hn Heven Hhex.
  { destruct s; [now exists []|cbn in Hn; lia]. }
  destruct s as [|a [|b r]]; [now exists []|cbn in Heven; discriminate|].
  cbn [forallb] in Hhex.
  apply andb_prop in Hhex as [Ha [Hb Hr]%andb_prop].
  destruct (lower_hex_pair a b Ha Hb) as (v & Hv & Hbs).
  destruct (IH r) as (rest & Hrest & Hstr); [cbn in Hn; lia| |assumption|].
  { cbn [length] in Heven. zlia. }
  exists (byte_of_Z v :: rest). split.
  - cbn [fromHex_spec]. rewrite Hv. cbn. now rewrite Hrest.
  - now rewrite stringify_cons, Hbs, Hstr.
Qed.

(** X4.  On a string of lower-case hex digits of even length,
    [HexEncoder.parse] returns an array whose hex text is the string
    itself. *)
Theorem HexEncoder_stringify_inverts_parse (s : jsstring) :
  Z.of_nat (length s) mod 2 = 0 -> forallb is_lower_hex s = true ->
  exists bytes, HexEncoder.parse s = Ok bytes /\ HexEncoder.stringify bytes = s.
Proof.
  intros Heven Hhex.
  destruct (lower_hex_fromHex_spec (length s) s) as (bytes & Hspec & Hstr);
    [lia|assumption|assumption|].
  exists bytes. split; [now apply parse_fromHex_spec|assumption].
Qed.

Lemma HexEncoder_stringify_inverts_parse_witness :
  exists bytes, HexEncoder.parse (js "00ff1a") = Ok bytes /\
                HexEncoder.stringify bytes = js "00ff1a".
Proof. apply HexEncoder_stringify_inverts_parse; reflexivity. Defined.

Lemma to_upper_hex_cases (c : Z) :
  (0x61 <= c <= 0x66 /\ to_upper_hex c = c - 0x20) \/
  ((c < 0x61 \/ 0x66 < c) /\ to_upper_hex c = c).
Proof.
  unfold to_upper_hex.
  destruct (Z.leb_spec 0x61 c), (Z.leb_spec c 0x66); cbn [andb];
    first [left; split; [lia|reflexivity] | right; split; [lia|reflexivity]].
Qed.

Lemma to_upper_hex_same (c : Z) :
  is_StrWhiteSpaceChar (to_upper_hex c) = is_StrWhiteSpaceChar c /\
  (to_upper_hex c =? 0x2B) = (c =? 0x2B) /\
  (to_upper_hex c =? 0x2D) = (c =? 0x2D) /\
  (to_upper_hex c =? 0x30) = (c =? 0x30) /\
  (to_upper_hex c =? 0x78) = (c =? 0x78) /\
  (to_upper_hex c =? 0x58) = (c =? 0x58) /\
  hex_digit_value (to_upper_hex c) = hex_digit_value c.
Proof.
  destruct (to_upper_hex_cases c) as [[Hc ->]|[_ ->]]; [|repeat split].
  unfold is_StrWhiteSpaceChar, hex_digit_value.
  repeat split; decide_cmp; try reflexivity.
  cbn [andb]. f_equal. lia.
Qed.

Lemma trim_start_upper (s : jsstring) :
  trim_start (map to_upper_hex s) = map to_upper_hex (trim_start s).
Proof.
  induction s as [|c r IH]; [reflexivity|]. cbn [map trim_start].
  destruct (to_upper_hex_same c) as (-> & _).
  now destruct (is_StrWhiteSpaceChar c).
Qed.

Lemma digits_prefix_upper (s : jsstring) :
  digits_prefix (map to_upper_hex s) = digits_prefix s.
Proof.
  induction s as [|c r IH]; [reflexivity|]. cbn [map digits_prefix].
  destruct (to_upper_hex_same c) as (_ & _ & _ & _ & _ & _ & ->).
  now rewrite IH.
Qed.

Lemma parseInt16_upper (s : jsstring) :
  parseInt16 (map to_upper_hex s) = parseInt16 s.
Proof.
  unfold parseInt16. rewrite trim_start_upper.
  destruct (trim_start s) as [|c r]; [reflexivity|]. cbn [map strip_sign].
  destruct (to_upper_hex_same c) as (_ & -> & -> & Hc0 & _).
  assert (Hstrip : forall t, strip_0x (map to_upper_hex t)
                             = map to_upper_hex (strip_0x t)).
  { intros [|a [|b t]]; try reflexivity. cbn [map strip_0x].
    destruct (to_upper_hex_same a) as (_ & _ & _ & -> & _).
    destruct (to_upper_hex_same b) as (_ & _ & _ & _ & -> & -> & _).
    now destruct ((a =? 0x30) && ((b =? 0x78) || (b =? 0x58))). }
  destruct ((c =? 0x2B) || (c =? 0x2D)).
  - now rewrite Hstrip, digits_prefix_upper.
  - change (to_upper_hex c :: map to_upper_hex r) with (map to_upper_hex (c :: r)).
    now rewrite Hstrip, digits_prefix_upper.
Qed.

Lemma substring_map (f : Z -> Z) (s : jsstring) (i j : Z) :
  substring (map f s) i j = map f (substring s i j).
Proof.
  unfold substring. rewrite length_map.
  now rewrite List.skipn_map, List.firstn_map.
Qed.

Lemma parse_loop_upper (s : jsstring) (n : nat) (i : Z) :
  HexEncoder.parse_loop (map to_upper_hex s) i n = HexEncoder.parse_loop s i n.
Proof.
  revert i. induction n as [|n IH]; intros i; [reflexivity|].
  cbn [HexEncoder.parse_loop].
  now rewrite substring_map, parseInt16_upper, IH.
Qed.

(** X5.  [HexEncoder.parse] does not tell upper-case hex letters from
    lower-case ones: writing the letters a to f of any string in upper
    case changes neither whether it is accepted nor the bytes
    returned. *)
Theorem HexEncoder_parse_ignores_case (s : jsstring) :
  HexEncoder.parse (map to_upper_hex s) = HexEncoder.parse s.
Proof.
  unfold HexEncoder.parse. rewrite length_map. now rewrite parse_loop_upper.
Qed.

(** ** UTF8Encoder *)

Lemma code_points_units (n : nat) (s : jsstring) :
  (length s <= n)%nat -> Forall is_code_unit s ->
  Forall is_scalar (code_points s) /\
  flat_map utf16_units (code_points s) = toWellFormed s.
Proof.
  revert s. induction n as [|n IH]; intros s Hn Hs.
  { destruct s; [split; [constructor|reflexivity]|cbn in Hn; lia]. }
  destruct s as [|c r]; [split; [constructor|reflexivity]|].
  apply Forall_cons in Hs as [Hc Hr]. unfold is_code_unit in Hc.
  cbn [code_points toWellFormed].
  assert (Hfffd : is_scalar 0xFFFD) by (right; lia).
  destruct (is_lead_surrogate c) eqn:Hlead.
  - destruct r as [|d r'].
    + split; [constructor; [assumption|constructor]|reflexivity].
    + destruct (is_trail_surrogate d) eqn:Htrail.
      * apply Forall_cons in Hr as [_ Hr'].
        destruct (IH r') as [Hsc Hu]; [cbn [length] in Hn; lia|assumption|].
        split.
        -- constructor; [|assumption].
           unfold is_lead_surrogate, is_trail_surrogate in *.
           apply andb_prop in Hlead as [H1 H2], Htrail as [H3 H4].
           apply Z.leb_le in H1, H2, H3, H4. right. lia.
        -- cbn [flat_map]. now rewrite utf16_units_pair, Hu.
      * destruct (IH (d :: r')) as [Hsc Hu]; [cbn [length] in Hn |- *; lia|assumption|].
        split; [now constructor|].
        cbn [flat_map]. now rewrite utf16_units_bmp, Hu by lia.
  - destruct (IH r) as [Hsc Hu]; [cbn [length] in Hn; lia|assumption|].
    destruct (is_trail_surrogate c) eqn:Htrail.
    + split; [now constructor|].
      cbn [flat_map]. now rewrite utf16_units_bmp, Hu by lia.
    + split.
      * constructor; [|assumption].
        unfold is_lead_surrogate, is_trail_surrogate in *.
        apply andb_false_iff in Hlead, Htrail.
        rewrite !Z.leb_gt in Hlead, Htrail. unfold is_scalar. lia.
      * cbn [flat_map]. now rewrite utf16_units_bmp, Hu by lia.
Qed.

Lemma units_strip_bom (cps : list Z) :
  Forall is_scalar cps ->
  flat_map utf16_units (strip_bom cps) = without_bom (flat_map utf16_units cps).
Proof.
  destruct 1 as [|c cps Hc Hcps]; [reflexivity|].
  cbn [strip_bom flat_map]. unfold utf16_units at 2.
  destruct (Z.eqb_spec c 0xFEFF) as [->|Hne]; [reflexivity|].
  destruct (Z.ltb_spec c 0x10000); cbn [app without_bom].
  - replace (c =? 0xFEFF) with false by (symmetry; now apply Z.eqb_neq).
    cbn [flat_map]. now rewrite utf16_units_bmp by lia.
  - rewrite shiftr_10. unfold is_scalar in Hc.
    replace (_ =? 0xFEFF) with false by (symmetry; apply Z.eqb_neq; zlia).
    cbn [flat_map]. unfold utf16_units.
    replace (c <? 0x10000) with false by (symmetry; apply Z.ltb_ge; lia).
    now rewrite shiftr_10.
Qed.

Lemma stringify_parse_law (s : jsstring) :
  Forall is_code_unit s ->
  UTF8Encoder.stringify (UTF8Encoder.parse s) = without_bom (toWellFormed s).
Proof.
  intros Hs. unfold UTF8Encoder.stringify, UTF8Encoder.parse.
  destruct (code_points_units (length s) s) as [Hsc Hu]; [lia|assumption|].
  now rewrite utf8_decode_encode, units_strip_bom, Hu.
Qed.

(** X6.  Decoding the encoding of a string gives the string with every
    unpaired surrogate replaced by U+FFFD and without its first code
    unit when that is U+FEFF; nothing else of a string is changed. *)
Theorem UTF8Encoder_stringify_parse_all (s : jsstring) :
  Forall is_code_unit s ->
  UTF8Encoder.stringify (UTF8Encoder.parse s) = without_bom (toWellFormed s).
Proof. apply stringify_parse_law. Qed.

Lemma UTF8Encoder_stringify_parse_all_witness :
  UTF8Encoder.stringify (UTF8Encoder.parse [0xFEFF; 0x61; 0xDC00; 0xD83D; 0xDE00; 0xD800])
    = without_bom (toWellFormed [0xFEFF; 0x61; 0xDC00; 0xD83D; 0xDE00; 0xD800]).
Proof.
  apply UTF8Encoder_stringify_parse_all.
  repeat constructor; unfold is_code_unit; lia.
Defined.

Lemma utf8_lead_error (b : Z) :
  0x80 <= b <= 0xC1 \/ 0xF5 <= b -> utf8_lead b = ([0xFFFD], utf8_init).
Proof.
  intros H. unfold utf8_lead.
  destruct H as [H|H]; decide_cmp; reflexivity.
Qed.

Lemma decoder_ok_init : decoder_ok utf8_init.
Proof. now left. Qed.

Lemma utf8_lead_ok (b : Z) :
  0 <= b < 256 ->
  Forall is_scalar (utf8_lead b).1 /\ decoder_ok (utf8_lead b).2.
Proof.
  intros Hb. assert (Hfffd : is_scalar 0xFFFD) by (right; lia).
  destruct (Z.le_gt_cases b 0x7F);
    [|destruct (Z.le_gt_cases b 0xC1);
      [|destruct (Z.le_gt_cases b 0xDF);
        [|destruct (Z.le_gt_cases b 0xEF);
          [|destruct (Z.le_gt_cases b 0xF4)]]]].
  - rewrite utf8_lead_1 by lia. split; [|apply decoder_ok_init].
    constructor; [left; lia|constructor].
  - rewrite utf8_lead_error by lia. split; [|apply decoder_ok_init].
    constructor; [assumption|constructor].
  - rewrite utf8_lead_2 by lia. split; [constructor|].
    right; left. cbn. repeat split; zlia.
  - rewrite utf8_lead_3 by lia. split; [constructor|].
    right; right; left. cbn. repeat split; try zlia; decide_cmp; zlia.
  - rewrite utf8_lead_4 by lia. split; [constructor|].
    do 4 right; left. cbn. repeat split; try zlia; decide_cmp; zlia.
  - rewrite utf8_lead_error by lia. split; [|apply decoder_ok_init].
    constructor; [assumption|constructor].
Qed.

Lemma utf8_handler_restart (st : utf8_decoder) (b : Z) :
  bytes_needed st <> 0 ->
  ~ lower_boundary st <= b <= upper_boundary st ->
  utf8_handler st b = (0xFFFD :: (utf8_lead b).1, (utf8_lead b).2).
Proof.
  intros Hn Hb. unfold utf8_handler.
  destruct (Z.eqb_spec (bytes_needed st) 0); [contradiction|].
  replace ((lower_boundary st <=? b) && (b <=? upper_boundary st)) with false.
  - cbn [negb]. now destruct (utf8_lead b).
  - symmetry. apply andb_false_iff. rewrite !Z.leb_gt. lia.
Qed.

Lemma utf8_handler_ok (st : utf8_decoder) (b : Z) :
  decoder_ok st -> 0 <= b < 256 ->
  Forall is_scalar (utf8_handler st b).1 /\ decoder_ok (utf8_handler st b).2.
Proof.
  intros Hst Hb. assert (Hfffd : is_scalar 0xFFFD) by (right; lia).
  destruct (Z.eq_dec (bytes_needed st) 0) as [Hz|Hnz].
  { rewrite utf8_handler_lead by assumption. now apply utf8_lead_ok. }
  destruct (Z_le_dec (lower_boundary st) b) as [Hl|Hl];
    [destruct (Z_le_dec b (upper_boundary st)) as [Hu|Hu]|].
  2,3: rewrite utf8_handler_restart by lia;
       destruct (utf8_lead_ok b Hb) as [Hout Hok];
       split; [now constructor|assumption].
  rewrite utf8_handler_continuation by lia.
  destruct st as [cp seen needed lower upper].
  unfold decoder_ok in Hst. cbn in Hst, Hl, Hu, Hnz |- *.
  destruct Hst as [H|[H|[H|[H|[H|[H|H]]]]]]; [contradiction|..];
    decompose [and] H; clear H; subst; utf8_state.
  - split; [|apply decoder_ok_init]. constructor; [left; zlia|constructor].
  - split; [constructor|]. do 3 right; left. cbn. repeat split; zlia.
  - split; [|apply decoder_ok_init].
    constructor; [unfold is_scalar; zlia|constructor].
  - split; [constructor|]. do 5 right; left. cbn. repeat split; zlia.
  - split; [constructor|]. do 6 right. cbn. repeat split; zlia.
  - split; [|apply decoder_ok_init]. constructor; [right; zlia|constructor].
Qed.

Lemma utf8_decode_scalar (bytes : list byte) (st : utf8_decoder) :
  decoder_ok st -> Forall is_scalar (utf8_decode_from st bytes).
Proof.
  revert st. induction bytes as [|b bytes IH]; intros st Hst.
  - cbn. destruct (bytes_needed st =? 0); [constructor|].
    constructor; [right; lia|constructor].
  - rewrite utf8_decode_step.
    destruct (utf8_handler_ok st (Z_of_byte b) Hst (Z_of_byte_range b)) as [Hout Hok].
    apply Forall_app. split; [assumption|now apply IH].
Qed.

Lemma well_formed_units (c : Z) (r : jsstring) :
  is_scalar c -> well_formed (utf16_units c ++ r) = well_formed r.
Proof.
  intros Hc. unfold is_scalar in Hc. unfold utf16_units.
  destruct (Z.ltb_spec c 0x10000); cbn [app well_formed].
  - unfold is_lead_surrogate, is_trail_surrogate.
    destruct Hc as [Hc|Hc]; decide_cmp; reflexivity.
  - rewrite shiftr_10, land_0x3FF.
    unfold is_lead_surrogate, is_trail_surrogate.
    decide_cmp. reflexivity.
Qed.

Lemma stringify_well_formed (bytes : list byte) :
  well_formed (UTF8Encoder.stringify bytes) = true.
Proof.
  unfold UTF8Encoder.stringify.
  assert (H : Forall is_scalar (strip_bom (utf8_decode_from utf8_init bytes))).
  { pose proof (utf8_decode_scalar bytes utf8_init decoder_ok_init) as Hd.
    destruct Hd as [|c cps Hc Hcps]; [constructor|].
    cbn [strip_bom]. destruct (c =? 0xFEFF); [assumption|now constructor]. }
  induction H as [|c cps Hc _ IH]; [reflexivity|].
  cbn [flat_map]. now rewrite well_formed_units.
Qed.

Lemma toWellFormed_well_formed (n : nat) (s : jsstring) :
  (length s <= n)%nat -> well_formed s = true ->
  Forall is_code_unit s /\ toWellFormed s = s.
Proof.
  revert s. induction n as [|n IH]; intros s Hn Hwf.
  { destruct s; [split; [constructor|reflexivity]|cbn in Hn; lia]. }
  destruct s as [|c r]; [split; [constructor|reflexivity]|].
  cbn [well_formed toWellFormed] in *.
  apply andb_prop in Hwf as [[Hc0 Hc1]%andb_prop Hwf].
  apply Z.leb_le in Hc0, Hc1.
  destruct (is_lead_surrogate c) eqn:Hlead.
  - destruct r as [|d r']; [discriminate|].
    apply andb_prop in Hwf as [Htrail Hwf]. rewrite Htrail.
    destruct (IH r') as [Hu Hid]; [cbn [length] in Hn; lia|assumption|].
    split; [|now rewrite Hid].
    constructor; [unfold is_code_unit; lia|].
    constructor; [|assumption].
    unfold is_trail_surrogate in Htrail.
    apply andb_prop in Htrail as [H3 H4]. apply Z.leb_le in H3, H4.
    unfold is_code_unit. lia.
  - apply andb_prop in Hwf as [Htrail Hwf].
    apply negb_true_iff in Htrail. rewrite Htrail.
    destruct (IH r) as [Hu Hid]; [cbn [length] in Hn; lia|assumption|].
    split; [|now rewrite Hid].
    constructor; [unfold is_code_unit; lia|assumption].
Qed.

(** X7.  Whatever the bytes, [UTF8Encoder.stringify] returns a
    well-formed string, which a second encoding and decoding leaves as
    it is but for a first U+FEFF: malformed input gives U+FFFD, never an
    unpaired surrogate. *)
Theorem UTF8Encoder_stringify_well_formed (bytes : list byte) :
  well_formed (UTF8Encoder.stringify bytes) = true /\
  UTF8Encoder.stringify (UTF8Encoder.parse (UTF8Encoder.stringify bytes))
    = without_bom (UTF8Encoder.stringify bytes).
Proof.
  pose proof (stringify_well_formed bytes) as Hwf.
  split; [assumption|].
  destruct (toWellFormed_well_formed (length (UTF8Encoder.stringify bytes))
              (UTF8Encoder.stringify bytes)) as [Hunits Hid];
    [lia|assumption|].
  now rewrite stringify_parse_law, Hid.
Qed.

Lemma length_utf8_encode_cp (c : Z) :
  length (utf8_encode_cp c) =
    if c <=? 0x7F then 1%nat else if c <=? 0x7FF then 2%nat
    else if c <=? 0xFFFF then 3%nat else 4%nat.
Proof.
  rewrite utf8_encode_cp_bytes.
  destruct (c <=? 0x7F); [reflexivity|].
  destruct (c <=? 0x7FF); [reflexivity|].
  now destruct (c <=? 0xFFFF).
Qed.

Lemma length_parse_bounds (n : nat) (s : jsstring) :
  (length s <= n)%nat -> Forall is_code_unit s ->
  (length s <= length (UTF8Encoder.parse s) <= 3 * length s)%nat.
Proof.
  unfold UTF8Encoder.parse.
  revert s. induction n as [|n IH]; intros s Hn Hs.
  { destruct s; [cbn; lia|cbn in Hn; lia]. }
  destruct s as [|c r]; [cbn; lia|].
  apply Forall_cons in Hs as [Hc Hr]. unfold is_code_unit in Hc.
  cbn [code_points].
  destruct (is_lead_surrogate c) eqn:Hlead.
  - destruct r as [|d r']; [cbn; lia|].
    destruct (is_trail_surrogate d) eqn:Htrail.
    + apply Forall_cons in Hr as [_ Hr'].
      specialize (IH r' ltac:(cbn [length] in Hn; lia) Hr').
      cbn [flat_map]. rewrite length_app, length_utf8_encode_cp.
      unfold is_lead_surrogate, is_trail_surrogate in *.
      apply andb_prop in Hlead as [H1 H2], Htrail as [H3 H4].
      apply Z.leb_le in H1, H2, H3, H4.
      decide_cmp. cbn [length]. lia.
    + specialize (IH (d :: r') ltac:(cbn [length] in Hn |- *; lia) Hr).
      cbn [flat_map]. rewrite length_app. cbn in IH |- *. lia.
  - specialize (IH r ltac:(cbn [length] in Hn; lia) Hr).
    destruct (is_trail_surrogate c).
    + cbn [flat_map]. rewrite length_app. cbn in IH |- *. lia.
    + cbn [flat_map]. rewrite length_app, length_utf8_encode_cp.
      decide_cmp; cbn [length]; lia.
Qed.

(** X8.  [UTF8Encoder.parse] gives at least one byte and at most three
    bytes for each code unit of the string. *)
Theorem UTF8Encoder_parse_length (s : jsstring) :
  Forall is_code_unit s ->
  (length s <= length (UTF8Encoder.parse s) <= 3 * length s)%nat.
Proof. intros Hs. now apply (length_parse_bounds (length s)). Qed.

Lemma UTF8Encoder_parse_length_witness :
  (length sample_text <= length (UTF8Encoder.parse sample_text)
   <= 3 * length sample_text)%nat.
Proof.
  apply UTF8Encoder_parse_length.
  repeat constructor; unfold is_code_unit; lia.
Defined.

(** ** encrypt and decrypt *)

Lemma parse_loop_throws (s : jsstring) (n : nat) (i : Z) (e : exn) :
  HexEncoder.parse_loop s i n = Throw e -> e = InvalidHexString.
Proof.
  revert i. induction n as [|n IH]; intros i H; cbn in H; [discriminate|].
  destruct (parseInt16 _); [|congruence].
  destruct (HexEncoder.parse_loop s (i + 2) n) eqn:Hrest; cbn in H;
    [discriminate|]. injection H as <-. eauto.
Qed.

Lemma parse_throws (s : jsstring) (e : exn) :
  HexEncoder.parse s = Throw e -> e = InvalidHexString.
Proof.
  unfold HexEncoder.parse.
  destruct (negb _); [congruence|apply parse_loop_throws].
Qed.

Lemma importKey_AES_throws (raw : list byte) (e : exn) :
  importKey_AES raw = Throw e -> e = CryptoError.
Proof. unfold importKey_AES. destruct (_ || _); congruence. Qed.

(** X9.  Every artifact [encrypt] returns is hex text from end to end:
    lower-case hex digits only, which [HexEncoder.parse] reads as the
    bytes of the IV followed by the bytes the cipher returned. *)
Theorem encrypt_artifact_is_hex {crypto : WebCrypto}
    (iv : list byte) (msg K artifact : jsstring) :
  encrypt iv msg K = Ok artifact ->
  exists key ct,
    subtle_encrypt key iv (UTF8Encoder.parse msg) = Ok ct /\
    HexEncoder.parse artifact = Ok (iv ++ ct) /\
    forallb is_lower_hex artifact = true /\
    length artifact = (2 * (length iv + length ct))%nat.
Proof.
  unfold encrypt. intros H.
  destruct (HexEncoder.parse K) as [raw|]; cbn in H; [|discriminate].
  destruct (importKey_AES raw) as [key|]; cbn in H; [|discriminate].
  destruct (subtle_encrypt key iv (UTF8Encoder.parse msg)) as [ct|] eqn:Hct;
    cbn in H; [|discriminate].
  injection H as <-. exists key, ct.
  split; [exact Hct|].
  rewrite <- stringify_app, parse_stringify, stringify_lower_hex,
    length_stringify, length_app.
  repeat split; reflexivity.
Qed.

Lemma encrypt_artifact_is_hex_witness :
  let artifact :=
    HexEncoder.stringify Toy.iv0 ++
    HexEncoder.stringify (rev (Toy.iv0 ++ UTF8Encoder.parse Toy.sample_json)) in
  exists key ct,
    Toy.encrypt key Toy.iv0 (UTF8Encoder.parse Toy.sample_json) = Ok ct /\
    HexEncoder.parse artifact = Ok (Toy.iv0 ++ ct) /\
    forallb is_lower_hex artifact = true /\
    length artifact = (2 * (length Toy.iv0 + length ct))%nat.
Proof.
  cbv zeta.
  apply (encrypt_artifact_is_hex (crypto := Toy.crypto) Toy.iv0 Toy.sample_json
           (HexEncoder.stringify (repeat x07 32))).
  reflexivity.
Defined.

(** X10.  A key that is not the hex text of 16, 24 or 32 bytes stops
    both [encrypt] and [decrypt] before the cipher is called: each
    throws, the hex error or the key error, whatever the message, the
    IV or the artifact. *)
Theorem bad_key_stops_before_cipher {crypto : WebCrypto}
    (iv : list byte) (msg K artifact : jsstring) :
  (forall raw, HexEncoder.parse K = Ok raw ->
     length raw <> 16%nat /\ length raw <> 24%nat /\ length raw <> 32%nat) ->
  (encrypt iv msg K = Throw InvalidHexString \/
   encrypt iv msg K = Throw CryptoError) /\
  (decrypt artifact K = Throw InvalidHexString \/
   decrypt artifact K = Throw CryptoError).
Proof.
  intros HK.
  assert (Hkey : (exists e, HexEncoder.parse K = Throw e) \/
                 exists raw, HexEncoder.parse K = Ok raw /\
                             importKey_AES raw = Throw CryptoError).
  { destruct (HexEncoder.parse K) as [raw|e] eqn:Hp; [right|left; eauto].
    exists raw. split; [reflexivity|].
    destruct (HK raw eq_refl) as (H16 & H24 & H32). unfold importKey_AES.
    replace (_ || _) with false; [reflexivity|].
    symmetry. rewrite !orb_false_iff, !Z.eqb_neq. lia. }
  split.
  - unfold encrypt.
    destruct Hkey as [[e He]|(raw & -> & Hraw)].
    + rewrite He. left. cbn. f_equal. now apply parse_throws in He.
    + cbn. rewrite Hraw. now right.
  - unfold decrypt.
    destruct (HexEncoder.parse (substring artifact 0 (IV_BITS / HEX_BITS)))
      as [ivb|e] eqn:Hiv; cbn.
    2:{ left. f_equal. now apply parse_throws in Hiv. }
    destruct Hkey as [[e He]|(raw & -> & Hraw)].
    + rewrite He. left. cbn. f_equal. now apply parse_throws in He.
    + cbn. rewrite Hraw. now right.
Qed.

Lemma bad_key_stops_before_cipher_witness :
  (encrypt (crypto := Toy.crypto) Toy.iv0 Toy.sample_json (js "00ff")
     = Throw InvalidHexString \/
   encrypt (crypto := Toy.crypto) Toy.iv0 Toy.sample_json (js "00ff")
     = Throw CryptoError) /\
  (decrypt (crypto := Toy.crypto) (js "0123") (js "00ff") = Throw InvalidHexString \/
   decrypt (crypto := Toy.crypto) (js "0123") (js "00ff") = Throw CryptoError).
Proof.
  apply (bad_key_stops_before_cipher (crypto := Toy.crypto)).
  intros raw [= <-]. repeat split; discriminate.
Defined.

(** X11.  An artifact with an odd number of characters is never handed
    to the cipher: [decrypt] throws on it, the hex error or the key
    error, whatever the key. *)
Theorem decrypt_odd_length_throws {crypto : WebCrypto}
    (artifact K : jsstring) :
  Z.of_nat (length artifact) mod 2 = 1 ->
  decrypt artifact K = Throw InvalidHexString \/
  decrypt artifact K = Throw CryptoError.
Proof.
  intros Hodd. rewrite decrypt_unfold.
  destruct (Nat.le_gt_cases (length artifact) 32) as [Hshort|Hlong].
  - rewrite take_ge by lia.
    rewrite (parse_odd_length artifact) by (rewrite Hodd; discriminate).
    now left.
  - assert (Hdata : HexEncoder.parse (drop 32 artifact) = Throw InvalidHexString).
    { apply parse_odd_length. rewrite length_drop. zlia. }
    destruct (HexEncoder.parse (take 32 artifact)) as [iv|e] eqn:Hiv; cbn.
    2:{ left. f_equal. now apply parse_throws in Hiv. }
    destruct (HexEncoder.parse K) as [raw|e] eqn:HK; cbn.
    2:{ left. f_equal. now apply parse_throws in HK. }
    destruct (importKey_AES raw) as [key|e] eqn:Hkey; cbn.
    2:{ right. f_equal. now apply importKey_AES_throws in Hkey. }
    rewrite Hdata. now left.
Qed.

Lemma decrypt_odd_length_throws_witness :
  decrypt (crypto := Toy.crypto) (js "not-valid-hex!!")
    (HexEncoder.stringify (repeat x07 32)) = Throw InvalidHexString \/
  decrypt (crypto := Toy.crypto) (js "not-valid-hex!!")
    (HexEncoder.stringify (repeat x07 32)) = Throw CryptoError.
Proof. apply decrypt_odd_length_throws. reflexivity. Defined.

(** X12.  Whatever [decrypt] returns is a well-formed string, also when
    the key was wrong or the artifact damaged and the cipher returned
    bytes that are no UTF-8. *)
Theorem decrypt_returns_well_formed {crypto : WebCrypto}
    (artifact K text : jsstring) :
  decrypt artifact K = Ok text -> well_formed text = true.
Proof.
  rewrite decrypt_unfold. intros H.
  destruct (HexEncoder.parse (take 32 artifact)) as [iv|]; cbn in H; [|discriminate].
  destruct (HexEncoder.parse K) as [raw|]; cbn in H; [|discriminate].
  destruct (importKey_AES raw) as [key|]; cbn in H; [|discriminate].
  destruct (HexEncoder.parse (drop 32 artifact)) as [data|]; cbn in H; [|discriminate].
  destruct (subtle_decrypt key iv data) as [out|]; cbn in H; [|discriminate].
  injection H as <-. apply stringify_well_formed.
Qed.

Lemma decrypt_returns_well_formed_witness :
  well_formed Toy.sample_json = true.
Proof.
  apply (decrypt_returns_well_formed (crypto := Toy.crypto)
           (HexEncoder.stringify Toy.iv0 ++
            HexEncoder.stringify (rev (Toy.iv0 ++ UTF8Encoder.parse Toy.sample_json)))
           (HexEncoder.stringify (repeat x07 32))).
  vm_compute. reflexivity.
Defined.

(** ** The three scripts *)

Section ScriptFacts.
Context {crypto : WebCrypto} {host : Host}.

(** X13.  With no password in the environment, or an empty one, each of
    the three scripts ends with code 1 before any other call: no file
    is tested, read or written. *)
Theorem no_password_no_call
    (pw : option jsstring) (fs : gmap string jsstring) (ent : nat -> byte) :
  falsy pw = true ->
  run main_encrypt (boot pw fs ent) = (boot pw fs ent, 1) /\
  run main_encrypt_data (boot pw fs ent) = (boot pw fs ent, 1) /\
  run main_decrypt (boot pw fs ent) = (boot pw fs ent, 1).
Proof.
  intros Hpw. unfold main_encrypt, main_encrypt_data, main_decrypt.
  run_along ltac:(rewrite ?Hpw). repeat split; reflexivity.
Qed.

(** X14.  With a password but no plaintext artifact, both encryption
    scripts end with code 1 after the one test for the plaintext; the
    full publish has not created a salt. *)
Theorem no_plaintext_no_salt
    (pw : option jsstring) (fs : gmap string jsstring) (ent : nat -> byte) :
  falsy pw = false -> fs !! DATA_PATH = None ->
  let stopped :=
    ({| STATICRYPT_PASSWORD := pw; files := fs; entropy := ent; drawn := 0;
        trace := [EvExists DATA_PATH] |}, 1) in
  run main_encrypt (boot pw fs ent) = stopped /\
  run main_encrypt_data (boot pw fs ent) = stopped.
Proof.
  intros Hpw Hnone. unfold main_encrypt, main_encrypt_data.
  run_along ltac:(rewrite ?Hpw, ?Hnone). split; reflexivity.
Qed.

(** X15.  With a password and an encrypted artifact but no salt
    configuration, the decryption script ends with code 1 after its two
    tests: it derives no key from a salt of its own making, and writes
    nothing. *)
Theorem decrypt_without_salt_stops
    (pw : option jsstring) (fs : gmap string jsstring) (ent : nat -> byte) :
  falsy pw = false -> fs !! DATA_ENC_PATH <> None -> fs !! CONFIG_PATH = None ->
  run main_decrypt (boot pw fs ent) =
    ({| STATICRYPT_PASSWORD := pw; files := fs; entropy := ent; drawn := 0;
        trace := [EvExists DATA_ENC_PATH; EvExists CONFIG_PATH] |}, 1).
Proof.
  intros Hpw Henc Hnone. unfold main_decrypt.
  destruct (fs !! DATA_ENC_PATH) as [enc|] eqn:He; [|contradiction].
  run_along ltac:(rewrite ?Hpw, ?He, ?Hnone). reflexivity.
Qed.

End ScriptFacts.

Lemma no_password_no_call_witness :
  run (main_encrypt (crypto := Toy.crypto) (host := Toy.host true))
      (boot (Some []) Toy.fresh_project Toy.ent0)
    = (boot (Some []) Toy.fresh_project Toy.ent0, 1) /\
  run (main_encrypt_data (crypto := Toy.crypto) (host := Toy.host true))
      (boot (Some []) Toy.fresh_project Toy.ent0)
    = (boot (Some []) Toy.fresh_project Toy.ent0, 1) /\
  run (main_decrypt (crypto := Toy.crypto) (host := Toy.host true))
      (boot (Some []) Toy.fresh_project Toy.ent0)
    = (boot (Some []) Toy.fresh_project Toy.ent0, 1).
Proof.
  apply (no_password_no_call (crypto := Toy.crypto) (host := Toy.host true)).
  reflexivity.
Defined.

Lemma no_plaintext_no_salt_witness :
  let stopped :=
    ({| STATICRYPT_PASSWORD := Some Toy.password; files := ∅;
        entropy := Toy.ent0; drawn := 0; trace := [EvExists DATA_PATH] |}, 1) in
  run (main_encrypt (crypto := Toy.crypto) (host := Toy.host true))
      (boot (Some Toy.password) ∅ Toy.ent0) = stopped /\
  run (main_encrypt_data (crypto := Toy.crypto) (host := Toy.host true))
      (boot (Some Toy.password) ∅ Toy.ent0) = stopped.
Proof.
  apply (no_plaintext_no_salt (crypto := Toy.crypto) (host := Toy.host true));
    reflexivity.
Defined.

Lemma decrypt_without_salt_stops_witness :
  run (main_decrypt (crypto := Toy.crypto) (host := Toy.host true))
      (boot (Some Toy.password) {[ DATA_ENC_PATH := js "00" ]} Toy.ent0) =
    ({| STATICRYPT_PASSWORD := Some Toy.password;
        files := {[ DATA_ENC_PATH := js "00" ]};
        entropy := Toy.ent0; drawn := 0;
        trace := [EvExists DATA_ENC_PATH; EvExists CONFIG_PATH] |}, 1).
Proof.
  apply (decrypt_without_salt_stops (crypto := Toy.crypto) (host := Toy.host true));
    [reflexivity|discriminate|reflexivity].
Defined.

(** Reads the files a run has written, at the path looked up and at the
    others. *)
Ltac other_paths :=
  repeat match goal with
  | H : context [<[?k := _]> _ !! ?k] |- _ =>
      rewrite lookup_insert_eq in H
  | H : context [<[_ := _]> _ !! _] |- _ =>
      rewrite lookup_insert_ne in H by discriminate
  | H : context [delete _ _ !! _] |- _ =>
      rewrite lookup_delete_ne in H by discriminate
  end.

Section ScriptEffects.
Context {crypto : WebCrypto} {host : Host}.

(** X16.  The data-only script changes no file but the plaintext and the
    encrypted artifact, and the decryption script none but the
    plaintext: the host document, its backup and the salt configuration
    are as they were, whatever the outcome. *)
Theorem data_scripts_touch_data_only
    (pw : option jsstring) (fs : gmap string jsstring) (ent : nat -> byte)
    (path : string) :
  (path <> DATA_PATH -> path <> DATA_ENC_PATH ->
   files (run main_encrypt_data (boot pw fs ent)).1 !! path = fs !! path) /\
  (path <> DATA_PATH ->
   files (run main_decrypt (boot pw fs ent)).1 !! path = fs !! path).
Proof.
  split.
  - intros Hd He. hold_property. unfold main_encrypt_data.
    run_cases; simplify_eq; held_property;
      rewrite ?lookup_delete_ne, ?lookup_insert_ne by congruence; reflexivity.
  - intros Hd. hold_property. unfold main_decrypt.
    run_cases; simplify_eq; held_property;
      rewrite ?lookup_insert_ne by congruence; reflexivity.
Qed.

(** X17.  No script replaces a salt configuration that exists: the
    data-only and the decryption scripts never write it, and the full
    publish writes it only when there was none. *)
Theorem salt_configuration_is_written_once
    (pw : option jsstring) (fs : gmap string jsstring) (ent : nat -> byte) :
  existsb (changes CONFIG_PATH)
    (trace (run main_encrypt_data (boot pw fs ent)).1) = false /\
  existsb (changes CONFIG_PATH)
    (trace (run main_decrypt (boot pw fs ent)).1) = false /\
  (existsb (changes CONFIG_PATH)
     (trace (run main_encrypt (boot pw fs ent)).1) = true ->
   fs !! CONFIG_PATH = None).
Proof.
  split; [|split].
  - hold_property. unfold main_encrypt_data.
    run_cases; simplify_eq; held_property; reflexivity.
  - hold_property. unfold main_decrypt.
    run_cases; simplify_eq; held_property; reflexivity.
  - hold_property. unfold main_encrypt.
    run_cases; simplify_eq; held_property; known_trace; reflexivity.
Qed.

(** X18.  The full publish keeps a backup of the host document that
    exists: it creates [index.html.bak] only when there was none, and
    when there was one the document it patches is the backup, not the
    current [index.html], so that a second publish does not patch a
    patched document. *)
Theorem backup_is_kept_and_patched
    (pw : option jsstring) (fs : gmap string jsstring) (ent : nat -> byte) :
  let tr := trace (run main_encrypt (boot pw fs ent)).1 in
  (existsb (changes INDEX_BAK_PATH) tr = true -> fs !! INDEX_BAK_PATH = None) /\
  (forall original html,
     fs !! INDEX_BAK_PATH = Some original ->
     In (EvWriteFile INDEX_PATH html) tr ->
     (exists salt, html = replace_loadData (inject_cryptoScript salt original)) \/
     (exists generated, html = always_store_password (add_logo generated))).
Proof.
  cbv zeta. split.
  - hold_property. unfold main_encrypt.
    run_cases; simplify_eq; held_property; known_trace;
      other_paths; congruence.
  - intros original html Hbak. hold_property. unfold main_encrypt.
    run_cases; other_paths; simplify_eq; held_property; cbn [In];
      intros Hin; repeat destruct Hin as [Hin|Hin];
      try discriminate; try contradiction;
      injection Hin as <-; eauto.
Qed.

(** X19.  When the host document and its backup are both missing, the
    full publish ends with code 1 without calling the generator and
    without unlinking the plaintext, which is as it was: by then the
    encrypted artifact may already have been replaced. *)
Theorem missing_host_document_stops_publish
    (pw : option jsstring) (fs : gmap string jsstring) (ent : nat -> byte) :
  fs !! INDEX_PATH = None -> fs !! INDEX_BAK_PATH = None ->
  let r := run main_encrypt (boot pw fs ent) in
  r.2 = 1 /\
  existsb is_exec (trace r.1) = false /\
  existsb (is_unlink DATA_PATH) (trace r.1) = false /\
  files r.1 !! DATA_PATH = fs !! DATA_PATH.
Proof.
  intros Hindex Hbak. cbv zeta. hold_property. unfold main_encrypt.
  run_cases; other_paths; simplify_eq; held_property;
    rewrite ?lookup_insert_ne by discriminate; repeat split;
    first [reflexivity | congruence].
Qed.

(** X20.  A full publish that ends with code 0 has written the encrypted
    artifact and the host document and has run the generator with
    success; it leaves neither the plaintext nor the generator's
    [encrypted/index.html] behind. *)
Theorem publish_success_postcondition
    (pw : option jsstring) (fs : gmap string jsstring) (ent : nat -> byte) :
  let r := run main_encrypt (boot pw fs ent) in
  r.2 = 0 ->
  existsb (is_write DATA_ENC_PATH) (trace r.1) = true /\
  existsb (is_write INDEX_PATH) (trace r.1) = true /\
  In (EvExec true) (trace r.1) /\
  files r.1 !! DATA_PATH = None /\
  files r.1 !! ENCRYPTED_INDEX_PATH = None.
Proof.
  cbv zeta. hold_property. unfold main_encrypt.
  run_cases; simplify_eq; held_property; known_trace;
    (split; [reflexivity|]); (split; [reflexivity|]);
    (split; [cbn [In]; tauto|]);
    (split; [first [apply lookup_delete_eq | assumption]|]);
    rewrite ?lookup_delete_ne by discriminate;
    first [ assumption
          | apply map_lookup_filter_None_2; right; intros x _ Hx; discriminate Hx ].
Qed.

End ScriptEffects.

Lemma missing_host_document_stops_publish_witness :
  let r := run (main_encrypt (crypto := Toy.crypto) (host := Toy.host true))
             (boot (Some Toy.password) {[ DATA_PATH := Toy.sample_json ]}
                Toy.ent0) in
  r.2 = 1 /\
  existsb is_exec (trace r.1) = false /\
  existsb (is_unlink DATA_PATH) (trace r.1) = false /\
  files r.1 !! DATA_PATH = ({[ DATA_PATH := Toy.sample_json ]} : gmap string jsstring) !! DATA_PATH.
Proof.
  apply (missing_host_document_stops_publish (crypto := Toy.crypto)
           (host := Toy.host true)); reflexivity.
Defined.

Lemma publish_success_postcondition_witness :
  let r := run (main_encrypt (crypto := Toy.crypto) (host := Toy.host true))
             (boot (Some Toy.password) Toy.fresh_project Toy.ent0) in
  r.2 = 0 /\
  existsb (is_write DATA_ENC_PATH) (trace r.1) = true /\
  existsb (is_write INDEX_PATH) (trace r.1) = true /\
  In (EvExec true) (trace r.1) /\
  files r.1 !! DATA_PATH = None /\
  files r.1 !! ENCRYPTED_INDEX_PATH = None.
Proof.
  cbv zeta.
  assert (H : (run (main_encrypt (crypto := Toy.crypto) (host := Toy.host true))
                 (boot (Some Toy.password) Toy.fresh_project Toy.ent0)).2 = 0)
    by (vm_compute; reflexivity).
  split; [exact H|].
  exact (publish_success_postcondition (crypto := Toy.crypto)
           (host := Toy.host true) (Some Toy.password) Toy.fresh_project
           Toy.ent0 H).
Defined.

Section SaltAndCycle.
Context {crypto : WebCrypto} {host : Host}.

(** X21.  [generateRandomSalt] draws 16 bytes and returns their 32
    lower-case hex digits, which [HexEncoder.parse] reads back as the
    bytes drawn; it changes no file. *)
Theorem generateRandomSalt_is_32_hex_digits (w : world) :
  exists salt w',
    generateRandomSalt w = (w', Done salt) /\
    length salt = 32%nat /\ forallb is_lower_hex salt = true /\
    HexEncoder.parse salt = Ok (map (entropy w) (seq (drawn w) 16)) /\
    files w' = files w /\ drawn w' = (drawn w + 16)%nat.
Proof.
  eexists _, _. split; [reflexivity|].
  change (Z.to_nat (128 / 8)) with 16%nat.
  rewrite length_stringify, stringify_lower_hex, parse_stringify, length_map,
    length_seq.
  repeat split.
Qed.

(** X22.  The cycle of a daily update.  With a password, a salt
    configuration that parses, and a plaintext that is well formed,
    does not start with U+FEFF and parses as JSON, the data-only script
    ends with code 0 leaving the encrypted artifact in place of the
    plaintext; the decryption script run next with the same password
    ends with code 0 and writes the plaintext back, character for
    character, keeping the artifact. *)
Theorem encrypt_data_then_decrypt_restores
    (Hkdf : deriveBits_256 crypto) (Haes : aes_cbc_correct crypto)
    (pw : option jsstring) (fs : gmap string jsstring) (ent ent' : nat -> byte)
    (content text salt : jsstring) (config j : json) :
  falsy pw = false ->
  fs !! DATA_PATH = Some content -> fs !! CONFIG_PATH = Some text ->
  JSON_parse text = Ok config -> get_salt config = Ok salt ->
  well_formed content = true -> starts_with_bom content = false ->
  JSON_parse content = Ok j ->
  exists artifact,
    let r1 := run main_encrypt_data (boot pw fs ent) in
    let r2 := run main_decrypt (boot pw (files r1.1) ent') in
    r1.2 = 0 /\
    files r1.1 = delete DATA_PATH (<[DATA_ENC_PATH := artifact]> fs) /\
    r2.2 = 0 /\
    files r2.1 = <[DATA_PATH := content]> (files r1.1) /\
    files r2.1 !! DATA_ENC_PATH = Some artifact.
Proof.
  intros Hpw Hdata Hconf Hparse Hsalt Hwf Hbom Hjson.
  destruct (hashPassword_key Hkdf (string_of pw) salt) as (raw & HK & Hraw).
  set (iv := map ent (seq 0 (Z.to_nat (IV_BITS / 8)))).
  assert (Hiv : length iv = 16%nat) by reflexivity.
  destruct (decrypt_encrypt Haes iv raw content _ Hiv HK Hraw)
    as (ct & _ & Henc & Hdec).
  rewrite UTF8Encoder_stringify_parse in Hdec by assumption.
  set (artifact := HexEncoder.stringify iv ++ HexEncoder.stringify ct) in *.
  exists artifact. cbv zeta.
  assert (H1 : run main_encrypt_data (boot pw fs ent) =
    ({| STATICRYPT_PASSWORD := pw;
        files := delete DATA_PATH (<[DATA_ENC_PATH := artifact]> fs);
        entropy := ent; drawn := 16;
        trace := [EvExists DATA_PATH; EvExists CONFIG_PATH; EvReadFile CONFIG_PATH;
                  EvHashPassword; EvReadFile DATA_PATH; EvRandom 16;
                  EvWriteFile DATA_ENC_PATH artifact; EvUnlink DATA_PATH] |}, 0)).
  { assert (Hd' : <[DATA_ENC_PATH := artifact]> fs !! DATA_PATH = Some content)
      by (now rewrite lookup_insert_ne by discriminate).
    unfold main_encrypt_data.
    run_along ltac:(rewrite ?Hpw, ?Hdata, ?Hconf, ?Hparse, ?Hsalt;
                    fold iv; rewrite ?Henc, ?Hd').
    reflexivity. }
  rewrite H1. cbn [fst snd files].
  set (fs1 := delete DATA_PATH (<[DATA_ENC_PATH := artifact]> fs)).
  assert (He1 : fs1 !! DATA_ENC_PATH = Some artifact).
  { unfold fs1. rewrite lookup_delete_ne by discriminate. apply lookup_insert_eq. }
  assert (Hc1 : fs1 !! CONFIG_PATH = Some text).
  { unfold fs1. now rewrite lookup_delete_ne, lookup_insert_ne by discriminate. }
  assert (H2 : run main_decrypt (boot pw fs1 ent') =
    ({| STATICRYPT_PASSWORD := pw; files := <[DATA_PATH := content]> fs1;
        entropy := ent'; drawn := 0;
        trace := [EvExists DATA_ENC_PATH; EvExists CONFIG_PATH;
                  EvReadFile CONFIG_PATH; EvHashPassword;
                  EvReadFile DATA_ENC_PATH; EvWriteFile DATA_PATH content] |}, 0)).
  { unfold main_decrypt.
    run_along ltac:(rewrite ?Hpw, ?He1, ?Hc1, ?Hparse, ?Hsalt, ?Hdec, ?Hjson).
    reflexivity. }
  rewrite H2. cbn [fst snd files].
  repeat split. now rewrite lookup_insert_ne by discriminate.
Qed.

End SaltAndCycle.

Lemma encrypt_data_then_decrypt_restores_witness :
  exists artifact,
    let r1 := run (main_encrypt_data (crypto := Toy.crypto) (host := Toy.host true))
                (boot (Some Toy.password) configured_project Toy.ent0) in
    let r2 := run (main_decrypt (crypto := Toy.crypto) (host := Toy.host true))
                (boot (Some Toy.password) (files r1.1) Toy.ent0) in
    r1.2 = 0 /\
    files r1.1 = delete DATA_PATH (<[DATA_ENC_PATH := artifact]> configured_project) /\
    r2.2 = 0 /\
    files r2.1 = <[DATA_PATH := Toy.sample_json]> (files r1.1) /\
    files r2.1 !! DATA_ENC_PATH = Some artifact.
Proof.
  apply (encrypt_data_then_decrypt_restores (crypto := Toy.crypto)
           (host := Toy.host true) toy_deriveBits_256 toy_aes_cbc_correct
           (Some Toy.password) configured_project Toy.ent0 Toy.ent0
           Toy.sample_json (0x7B :: Toy.salt) Toy.salt Toy.salt
           (List.tl Toy.sample_json));
    reflexivity.
Defined.

(** ** The daily snapshots *)

Section Snapshots.
Context {A : Type}.
Implicit Types (l : list (snapshot A)) (s : snapshot A).

Lemma getPreviousSnapshot_loop_spec (today : jsstring) l (i : nat) :
  (i <= length l)%nat ->
  match getPreviousSnapshot_loop today l i with
  | Some s =>
      exists pre post,
        take i l = pre ++ s :: post /\ date s <> today /\
        Forall (fun x => date x = today) post
  | None => Forall (fun x => date x = today) (take i l)
  end.
Proof.
  induction i as [|i IH]; intros Hi; [constructor|].
  cbn [getPreviousSnapshot_loop].
  destruct (l !! i) as [x|] eqn:Hx.
  2:{ apply lookup_ge_None in Hx. lia. }
  rewrite (take_S_r _ _ _ Hx).
  case_bool_decide as Hd.
  - specialize (IH ltac:(lia)).
    destruct (getPreviousSnapshot_loop today l i) as [s|].
    + destruct IH as (pre & post & -> & Hs & Hpost).
      exists pre, (post ++ [x]). split; [now rewrite <- app_assoc|].
      split; [assumption|]. apply Forall_app. split; [assumption|].
      now constructor.
    + apply Forall_app. split; [assumption|now constructor].
  - exists (take i l), []. repeat split; [assumption|constructor].
Qed.

(** X23.  [getPreviousSnapshot] returns the last snapshot of the array
    that is not dated today: every snapshot after it is dated today.  It
    returns null exactly when there is no array, or every snapshot is
    dated today, which an empty array is. *)
Theorem getPreviousSnapshot_is_last_before_today
    (today : jsstring) (snapshots : option (list (snapshot A))) :
  match getPreviousSnapshot today snapshots with
  | Some s =>
      exists pre post,
        snapshots = Some (pre ++ s :: post) /\ date s <> today /\
        Forall (fun x => date x = today) post
  | None =>
      forall l, snapshots = Some l -> Forall (fun x => date x = today) l
  end.
Proof.
  destruct snapshots as [l|]; [|intros l; discriminate].
  cbn [getPreviousSnapshot].
  destruct (Nat.eqb_spec (length l) 0) as [Hz|Hnz].
  { intros l' [= <-]. destruct l; [constructor|discriminate]. }
  pose proof (getPreviousSnapshot_loop_spec today l (length l) (le_n _)) as H.
  rewrite take_ge in H by lia.
  destruct (getPreviousSnapshot_loop today l (length l)) as [s|].
  - destruct H as (pre & post & -> & Hs & Hpost). eauto.
  - intros l' [= <-]. assumption.
Qed.

Lemma findIndex_Some (p : snapshot A -> bool) l (i : nat) :
  findIndex p l = Some i -> exists s, l !! i = Some s /\ p s = true.
Proof.
  revert i. induction l as [|x r IH]; intros i H; cbn in H; [discriminate|].
  destruct (p x) eqn:Hp.
  - injection H as <-. eauto.
  - destruct (findIndex p r) as [k|]; cbn in H; [|discriminate].
    injection H as <-. apply (IH k eq_refl).
Qed.

Lemma findIndex_None (p : snapshot A -> bool) l :
  findIndex p l = None -> Forall (fun s => p s = false) l.
Proof.
  induction l as [|x r IH]; intros H; cbn in H; [constructor|].
  destruct (p x) eqn:Hp; [discriminate|].
  destruct (findIndex p r); [discriminate|]. constructor; auto.
Qed.

Lemma same_date_same_snapshot l s1 s2 :
  NoDup (map date l) -> In s1 l -> In s2 l -> date s1 = date s2 -> s1 = s2.
Proof.
  induction l as [|x r IH]; intros Hnd H1 H2 Hd; [contradiction|].
  cbn [map] in Hnd. apply NoDup_cons in Hnd as [Hx Hr].
  assert (Hin : forall s, In s r -> date s ∈ map date r).
  { intros s Hs. apply list_elem_of_In, in_map, Hs. }
  destruct H1 as [<-|H1], H2 as [<-|H2]; [reflexivity|..].
  - exfalso. apply Hx. rewrite Hd. now apply Hin.
  - exfalso. apply Hx. rewrite <- Hd. now apply Hin.
  - now apply IH.
Qed.

(** X24.  Storing today's snapshot keeps the array within 365 entries
    with one entry for each date: the snapshot stored is in the array
    and is its only entry dated today. *)
Theorem storeSnapshot_keeps_one_per_day
    (today : jsstring) (snap : snapshot A) l :
  date snap = today ->
  (length l <= 365)%nat -> NoDup (map date l) ->
  let stored := storeSnapshot today snap l in
  (length stored <= 365)%nat /\ NoDup (map date stored) /\
  In snap stored /\
  forall s, In s stored -> date s = today -> s = snap.
Proof.
  intros Hdate Hlen Hnd. cbv zeta.
  assert (Hgoal : (length (storeSnapshot today snap l) <= 365)%nat /\
                  NoDup (map date (storeSnapshot today snap l)) /\
                  In snap (storeSnapshot today snap l)).
  { unfold storeSnapshot.
    destruct (findIndex _ l) as [i|] eqn:Hfind.
    - apply findIndex_Some in Hfind as (s & Hs & Hp).
      apply bool_decide_eq_true in Hp.
      assert (Hi : (i < length l)%nat) by (eapply lookup_lt_Some; eassumption).
      rewrite length_insert.
      replace (365 <? length l)%nat with false
        by (symmetry; apply Nat.ltb_ge; lia).
      split; [rewrite length_insert; assumption|]. split.
      + replace (map date (<[i:=snap]> l)) with (map date l); [assumption|].
        symmetry. change (map date) with (fmap (M := list) (@date A)).
        rewrite list_fmap_insert. apply list_insert_id.
        rewrite list_lookup_fmap, Hs. cbn. congruence.
      + apply list_elem_of_In, list_elem_of_lookup. exists i.
        now apply list_lookup_insert_eq.
    - apply findIndex_None in Hfind.
      assert (Hnd' : NoDup (map date (l ++ [snap]))).
      { rewrite map_app. apply NoDup_app. split; [assumption|].
        split; [|apply NoDup_singleton].
        intros d Hd Hd'. apply list_elem_of_In in Hd, Hd'.
        cbn in Hd'. destruct Hd' as [<-|[]].
        apply in_map_iff in Hd as (s & Hsd & Hs).
        rewrite List.Forall_forall in Hfind. specialize (Hfind s Hs).
        apply bool_decide_eq_false in Hfind. congruence. }
      rewrite length_app. cbn [length].
      destruct (Nat.ltb_spec 365 (length l + 1)) as [Hbig|Hsmall].
      + rewrite drop_app_le by lia. split; [|split].
        * rewrite length_app, length_drop. cbn [length]. lia.
        * rewrite <- drop_app_le by lia.
          change (map date) with (fmap (M := list) (@date A)) in *.
          rewrite fmap_drop. eapply sublist_NoDup; [eassumption|apply sublist_drop].
        * apply in_or_app. right. now left.
      + split; [rewrite ?length_app; cbn [length]; lia|].
        split; [assumption|]. apply in_or_app. right. now left. }
  destruct Hgoal as (Hl & Hn & Hin). repeat split; try assumption.
  intros s Hs Hd. apply (same_date_same_snapshot _ s snap Hn Hs Hin). congruence.
Qed.

End Snapshots.

Lemma storeSnapshot_keeps_one_per_day_witness :
  let old := [ {| date := js "2025-01-01"; rest := 1%nat |};
               {| date := js "2025-01-02"; rest := 2%nat |} ] in
  let snap := {| date := js "2025-01-02"; rest := 3%nat |} in
  let stored := storeSnapshot (js "2025-01-02") snap old in
  (length stored <= 365)%nat /\ NoDup (map date stored) /\
  In snap stored /\
  forall s, In s stored -> date s = js "2025-01-02" -> s = snap.
Proof.
  cbv zeta.
  apply (storeSnapshot_keeps_one_per_day (js "2025-01-02")
           {| date := js "2025-01-02"; rest := 3%nat |}).
  - reflexivity.
  - cbn. lia.
  - cbn [map date]. apply NoDup_cons. split.
    + intros H%list_elem_of_In. cbn in H. destruct H as [H|[]]. discriminate H.
    + apply NoDup_singleton.
Defined.

(** ** Round trips on every message, and the salt across runs *)

(** X25.  Under a 256-bit key and a 16-byte IV, [decrypt] of what
    [encrypt] returned gives, for every message, the message with each
    unpaired surrogate replaced by U+FFFD and without its first code
    unit when that is U+FEFF. *)
Theorem decrypt_encrypt_on_every_message {crypto : WebCrypto}
    (Haes : aes_cbc_correct crypto)
    (iv raw : list byte) (msg K : jsstring) :
  length iv = 16%nat ->
  HexEncoder.parse K = Ok raw -> length raw = 32%nat ->
  Forall is_code_unit msg ->
  exists artifact,
    encrypt iv msg K = Ok artifact /\
    decrypt artifact K = Ok (without_bom (toWellFormed msg)).
Proof.
  intros Hiv HK Hraw Hmsg.
  destruct (decrypt_encrypt Haes iv raw msg K Hiv HK Hraw) as (ct & _ & Henc & Hdec).
  eexists. split; [exact Henc|]. now rewrite Hdec, stringify_parse_law.
Qed.

Lemma decrypt_encrypt_on_every_message_witness :
  exists artifact,
    encrypt (crypto := Toy.crypto) Toy.iv1 (0xFEFF :: 0xDC00 :: sample_text)
      (HexEncoder.stringify (repeat x07 32)) = Ok artifact /\
    decrypt (crypto := Toy.crypto) artifact (HexEncoder.stringify (repeat x07 32))
      = Ok (without_bom (toWellFormed (0xFEFF :: 0xDC00 :: sample_text))).
Proof.
  apply (decrypt_encrypt_on_every_message (crypto := Toy.crypto)
           toy_aes_cbc_correct Toy.iv1 (repeat x07 32));
    [reflexivity|apply parse_stringify|reflexivity|].
  repeat constructor; unfold is_code_unit; lia.
Defined.

(** X26.  [loadOrCreateConfig] called again after it has created the
    configuration loads the salt it wrote: it draws no more bytes and
    writes nothing, provided the host reads back the configuration it
    printed. *)
Theorem loadOrCreateConfig_reuses_salt {host : Host}
    (pw : option jsstring) (fs : gmap string jsstring) (ent : nat -> byte) :
  fs !! CONFIG_PATH = None ->
  (forall s, get_salt (salt_object s) = Ok s /\
             exists c, JSON_parse (JSON_stringify (salt_object s)) = Ok c /\
                       get_salt c = Ok s) ->
  exists w1 c1 w2 c2,
    loadOrCreateConfig (boot pw fs ent) = (w1, Done c1) /\
    loadOrCreateConfig w1 = (w2, Done c2) /\
    get_salt c1 = Ok (HexEncoder.stringify (map ent (seq 0 16))) /\
    get_salt c2 = get_salt c1 /\
    files w2 = files w1 /\ drawn w2 = drawn w1 /\
    existsb (changes CONFIG_PATH) (drop (length (trace w1)) (trace w2)) = false.
Proof.
  intros Hnone Hjson.
  set (salt := HexEncoder.stringify (map ent (seq 0 16))).
  destruct (Hjson salt) as (Hget & c & Hparse & Hc).
  eexists _, _, _, c. split.
  { run_along ltac:(rewrite ?Hnone). reflexivity. }
  change (Z.to_nat (128 / 8)) with 16%nat. fold salt.
  split.
  { run_along ltac:(rewrite ?lookup_insert_eq, ?Hparse). reflexivity. }
  cbn [files drawn trace]. rewrite Hget, Hc. repeat split.
Qed.

Lemma loadOrCreateConfig_reuses_salt_witness :
  exists w1 c1 w2 c2,
    loadOrCreateConfig (host := Toy.host true)
      (boot (Some Toy.password) Toy.fresh_project Toy.ent0) = (w1, Done c1) /\
    loadOrCreateConfig (host := Toy.host true) w1 = (w2, Done c2) /\
    get_salt (Host := Toy.host true) c1
      = Ok (HexEncoder.stringify (map Toy.ent0 (seq 0 16))) /\
    get_salt (Host := Toy.host true) c2 = get_salt (Host := Toy.host true) c1 /\
    files w2 = files w1 /\ drawn w2 = drawn w1 /\
    existsb (changes CONFIG_PATH) (drop (length (trace w1)) (trace w2)) = false.
Proof.
  apply (loadOrCreateConfig_reuses_salt (host := Toy.host true));
    [reflexivity|].
  intros s. split; [reflexivity|]. exists s. split; [|reflexivity].
  cbn. reflexivity.
Defined.

(** ** C3: the wire format *)

(** The decoder of the specification reads back what [HexEncoder.stringify]
    wrote. *)
Lemma fromHex_spec_stringify (bs : list byte) :
  fromHex_spec (HexEncoder.stringify bs) = Some bs.
Proof.
  destruct (lower_hex_fromHex_spec (length bs) (HexEncoder.stringify bs))
    as (bytes & Hspec & Hstr).
  - rewrite length_stringify. lia.
  - rewrite length_stringify, Nat2Z.inj_mul, Z.mul_comm. apply Z_mod_mult.
  - apply stringify_lower_hex.
  - apply stringify_inj in Hstr. now subst.
Qed.

Lemma byte_of_Z_of_byte (b : byte) : byte_of_Z (Z_of_byte b) = b.
Proof. now destruct b. Qed.

Lemma well_formed_ascii (s : jsstring) :
  Forall (fun c => 0 <= c <= 0x7F) s ->
  well_formed s = true /\ starts_with_bom s = false.
Proof.
  intros H. split.
  - induction H as [|c r Hc _ IH]; [reflexivity|].
    cbn [well_formed]. unfold is_lead_surrogate, is_trail_surrogate.
    rewrite IH. decide_cmp. reflexivity.
  - destruct H as [|c r Hc _]; [reflexivity|].
    cbn [starts_with_bom]. apply Z.eqb_neq. lia.
Qed.

(** Bytes below 0x80 are decoded one code unit each. *)
Lemma stringify_ascii (out : list byte) :
  Forall (fun b => Z_of_byte b <= 0x7F) out ->
  UTF8Encoder.stringify out = map Z_of_byte out.
Proof.
  intros Hout.
  assert (Hs : Forall (fun c => 0 <= c <= 0x7F) (map Z_of_byte out)).
  { apply List.Forall_forall. intros c [b [<- Hb]]%in_map_iff.
    rewrite List.Forall_forall in Hout. specialize (Hout b Hb).
    pose proof (Z_of_byte_range b). lia. }
  destruct (well_formed_ascii _ Hs) as [Hwf Hbom].
  transitivity (UTF8Encoder.stringify (UTF8Encoder.parse (map Z_of_byte out)));
    [|now apply UTF8Encoder_stringify_parse].
  f_equal. rewrite (UTF8Encoder_parse_ascii _ Hs), map_map.
  rewrite <- (map_id out) at 1. apply map_ext. intros b.
  symmetry. apply byte_of_Z_of_byte.
Qed.

(** C3.  Under a 256-bit key and a 16-byte IV, [encrypt] returns the hex
    digits of the IV followed at once by the hex digits of the
    ciphertext and nothing else: the artifact is made of lower-case hex
    digits, two for each byte of the IV and of the ciphertext, its first
    32 characters are the hex text of the IV and decode to the 16 bytes
    of the IV, and the characters from 32 on decode to the ciphertext.
    On every artifact, [decrypt] reads the first 32 characters as the IV
    and the characters from 32 on as the ciphertext: when they are the
    hex text of [ivBytes] and of [data], it gives these to the cipher and
    returns what the cipher returned, decoded as UTF-8: a well-formed
    string, which has one code unit for each byte when the bytes are
    below 0x80, and is [text] when the bytes are the UTF-8 encoding of a
    well-formed [text] that starts with no U+FEFF; an error of the
    cipher is the error of [decrypt]. *)
Theorem artifact_is_iv_then_ciphertext {crypto : WebCrypto}
    (Haes : aes_cbc_correct crypto)
    (msg K : jsstring) (raw iv : list byte) :
  HexEncoder.parse K = Ok raw -> length raw = 32%nat ->
  length iv = 16%nat ->
  (exists ct artifact,
     subtle_encrypt raw iv (UTF8Encoder.parse msg) = Ok ct /\
     encrypt iv msg K = Ok artifact /\
     artifact = HexEncoder.stringify iv ++ HexEncoder.stringify ct /\
     length (HexEncoder.stringify iv) = 32%nat /\
     substring artifact 0 32 = HexEncoder.stringify iv /\
     substring_from artifact 32 = HexEncoder.stringify ct /\
     forallb is_lower_hex artifact = true /\
     length artifact = (32 + 2 * length ct)%nat /\
     fromHex_spec (substring artifact 0 32) = Some iv /\
     fromHex_spec (substring_from artifact 32) = Some ct /\
     HexEncoder.parse (substring artifact 0 32) = Ok iv /\
     HexEncoder.parse (substring_from artifact 32) = Ok ct) /\
  (forall encryptedMsg hashedPassword,
     substring encryptedMsg 0 32 = take 32 encryptedMsg /\
     substring_from encryptedMsg 32 = drop 32 encryptedMsg /\
     decrypt encryptedMsg hashedPassword =
       (iv ← HexEncoder.parse (take 32 encryptedMsg);
        raw ← HexEncoder.parse hashedPassword;
        key ← importKey_AES raw;
        data ← HexEncoder.parse (drop 32 encryptedMsg);
        outBuffer ← subtle_decrypt key iv data;
        Ok (UTF8Encoder.stringify outBuffer))) /\
  (forall encryptedMsg ivBytes data,
     fromHex_spec (substring encryptedMsg 0 32) = Some ivBytes ->
     fromHex_spec (substring_from encryptedMsg 32) = Some data ->
     match subtle_decrypt raw ivBytes data with
     | Ok out =>
         decrypt encryptedMsg K = Ok (UTF8Encoder.stringify out) /\
         well_formed (UTF8Encoder.stringify out) = true /\
         (Forall (fun b => Z_of_byte b <= 0x7F) out ->
            decrypt encryptedMsg K = Ok (map Z_of_byte out)) /\
         (forall text,
            well_formed text = true -> starts_with_bom text = false ->
            out = UTF8Encoder.parse text ->
            decrypt encryptedMsg K = Ok text)
     | Throw e => decrypt encryptedMsg K = Throw e
     end).
Proof.
  intros HK Hraw Hiv. split; [|split].
  - destruct (decrypt_encrypt Haes iv raw msg K Hiv HK Hraw) as (ct & Hct & Henc & _).
    exists ct, (HexEncoder.stringify iv ++ HexEncoder.stringify ct).
    assert (length (HexEncoder.stringify iv) = 32%nat) as Hlen
      by (rewrite length_stringify, Hiv; reflexivity).
    assert (substring (HexEncoder.stringify iv ++ HexEncoder.stringify ct) 0 32
            = HexEncoder.stringify iv) as Hhead.
    { change 32 with (Z.of_nat 32). rewrite substring_take.
      now apply take_app_length'. }
    assert (substring_from (HexEncoder.stringify iv ++ HexEncoder.stringify ct) 32
            = HexEncoder.stringify ct) as Htail.
    { change 32 with (Z.of_nat 32). rewrite substring_from_drop.
      now apply drop_app_length'. }
    rewrite Hhead, Htail.
    repeat split; try assumption; try reflexivity.
    + rewrite <- stringify_app. apply stringify_lower_hex.
    + rewrite length_app, Hlen, length_stringify. reflexivity.
    + apply fromHex_spec_stringify.
    + apply fromHex_spec_stringify.
    + apply parse_stringify.
    + apply parse_stringify.
  - intros encryptedMsg hashedPassword.
    split; [apply (substring_take encryptedMsg 32)|].
    split; [apply (substring_from_drop encryptedMsg 32)|].
    apply decrypt_unfold.
  - intros encryptedMsg ivBytes data Hhead Htail.
    apply parse_fromHex_spec in Hhead, Htail.
    assert (Hdec : decrypt encryptedMsg K =
              (outBuffer ← subtle_decrypt raw ivBytes data;
               Ok (UTF8Encoder.stringify outBuffer))).
    { unfold decrypt. change (IV_BITS / HEX_BITS) with 32.
      rewrite Hhead, HK, Htail. cbn. rewrite (importKey_AES_256 raw Hraw).
      reflexivity. }
    destruct (subtle_decrypt raw ivBytes data) as [out|e]; cbn in Hdec;
      [|exact Hdec].
    split; [exact Hdec|]. split; [apply stringify_well_formed|]. split.
    + intros Hout. now rewrite Hdec, stringify_ascii.
    + intros text Hwf Hbom ->. now rewrite Hdec, UTF8Encoder_stringify_parse.
Qed.

Lemma artifact_is_iv_then_ciphertext_witness :
  let K := HexEncoder.stringify (repeat x07 32) in
  let ct := rev (Toy.iv1 ++ UTF8Encoder.parse Toy.sample_json) in
  let artifact := HexEncoder.stringify Toy.iv1 ++ HexEncoder.stringify ct in
  encrypt (crypto := Toy.crypto) Toy.iv1 Toy.sample_json K = Ok artifact /\
  fromHex_spec (substring artifact 0 32) = Some Toy.iv1 /\
  fromHex_spec (substring_from artifact 32) = Some ct /\
  decrypt (crypto := Toy.crypto) artifact K = Ok Toy.sample_json.
Proof.
  cbv zeta.
  destruct (artifact_is_iv_then_ciphertext (crypto := Toy.crypto)
              toy_aes_cbc_correct Toy.sample_json
              (HexEncoder.stringify (repeat x07 32)) (repeat x07 32) Toy.iv1
              (parse_stringify (repeat x07 32)) eq_refl eq_refl)
    as [(ct & artifact & Hct & Henc & -> & _ & _ & _ & _ & _ & Hiv & Hdata & _)
        [_ Hdecrypt]].
  injection Hct as <-.
  split; [exact Henc|]. split; [exact Hiv|]. split; [exact Hdata|].
  specialize (Hdecrypt _ _ _ Hiv Hdata).
  exact (proj2 (proj2 (proj2 Hdecrypt)) Toy.sample_json eq_refl eq_refl eq_refl).
Defined.
